(** * TPM TIS over SPI: the command framing of [hw/tpm/tpm_tis_spi.c]

    The device receives one byte per call of [tpm_tis_spi_transfer8] and
    frames it as header, address or data.  The embedding below follows the
    C text: fixed-width integers are [Z] with their wrap-around written
    out, the unions are byte arrays with the integer member read through
    the host's byte order, an indexed store outside an array is undefined
    behaviour and is reported as such, and the TIS core behind the bus is
    an interface whose calls are both executed and logged. *)

From Stdlib Require Import ZArith Lia.
From stdpp Require Import base tactics option list.

Local Open Scope Z_scope.

(** ** Machine integers *)

Definition uint8 (z : Z) : Z := z mod 2 ^ 8.
Definition uint32 (z : Z) : Z := z mod 2 ^ 32.

(** ** The host

    Bit-field allocation and the overlay of an integer on a byte array are
    fixed by the host the device model is compiled for; [hwaddr] is a
    typedef of the memory API, not of this file, so its size is a host
    parameter as well. *)

Record Host := {
  big_endian : bool;
  sizeof_hwaddr : nat
}.

(** A little-endian host with 64-bit physical addresses. *)
Definition le64 : Host := {| big_endian := false; sizeof_hwaddr := 8 |}.

(** A big-endian host with 64-bit physical addresses. *)
Definition be64 : Host := {| big_endian := true; sizeof_hwaddr := 8 |}.

(** ** [CMDState] *)

Definition STATE_IDLE : Z := 0.
Definition STATE_ADDRESS : Z := 1.
Definition STATE_DATA : Z := 2.

(** ** [union TpmTisRWSizeByte]

    [data_expected_size : 6] (spelt [data__expected_size] where it is
    declared), [resv : 1], [rwflag : 1], in that order of declaration: on a
    little-endian host the first field takes the low bits of the byte, on
    a big-endian host the high ones. *)

Definition data_expected_size (host : Host) (byte : Z) : Z :=
  if big_endian host then Z.land (Z.shiftr byte 2) 63 else Z.land byte 63.

Definition resv (host : Host) (byte : Z) : bool :=
  if big_endian host then Z.testbit byte 1 else Z.testbit byte 6.

Definition rwflag (host : Host) (byte : Z) : bool :=
  if big_endian host then Z.testbit byte 0 else Z.testbit byte 7.

(** ** [union TpmTisSpiHwAddr], [union TpmTisSpiData]

    Both unions are kept as their [bytes] member; the integer member is
    the value the host reads from those bytes. *)

Fixpoint le_value (bytes : list Z) : Z :=
  match bytes with
  | [] => 0
  | b :: rest => Z.lor b (Z.shiftl (le_value rest) 8)
  end.

Definition overlay_value (host : Host) (bytes : list Z) : Z :=
  if big_endian host then le_value (rev bytes) else le_value bytes.

(** [bytes[idx] = v]: defined only inside the array. *)
Definition store_byte (bytes : list Z) (idx v : Z) : option (list Z) :=
  if decide (0 <= idx < Z.of_nat (length bytes))
  then Some (<[Z.to_nat idx := v]> bytes)
  else None.

(** [sizeof(data)] for the [uint32_t data] member. *)
Definition sizeof_data : nat := 4.

(** ** Outcomes *)

Inductive Fault :=
| AddrOutOfBounds (index : Z)
| DataOutOfBounds (index : Z).

Inductive result (A : Type) :=
| Ok (a : A)
| Undefined (f : Fault).

Arguments Ok {A} a.
Arguments Undefined {A} f.

(** ** The TIS core behind the bus

    [tpm_tis_mmio_read], [tpm_tis_mmio_write] and [tpm_tis_reset] belong to
    the common TIS code; the decoder only calls them. *)

Class TisCore (TPMState : Type) := {
  tpm_tis_mmio_read : TPMState -> Z -> Z -> Z * TPMState;
  tpm_tis_mmio_write : TPMState -> Z -> Z -> Z -> TPMState;
  tpm_tis_reset : TPMState -> TPMState
}.

(** A call of the decoder into the register file. *)
Inductive Access :=
| MmioRead (addr size : Z)
| MmioWrite (addr val size : Z).

(** A core without registers of its own: every read returns [v]. *)
Definition fixed_core (v : Z) : TisCore unit := {|
  tpm_tis_mmio_read := fun s _ _ => (v, s);
  tpm_tis_mmio_write := fun s _ _ _ => s;
  tpm_tis_reset := fun s => s
|}.

(** A core with one register, the number of calls made into it: a read
    returns the count, and a reset clears it. *)
Definition counting_core : TisCore Z := {|
  tpm_tis_mmio_read := fun s _ _ => (s, s + 1);
  tpm_tis_mmio_write := fun s _ _ _ => s + 1;
  tpm_tis_reset := fun _ => 0
|}.

(** ** [struct TPMStateSpi]

    [parent_obj] plays no part in the framing and is left out. *)

Record TPMStateSpi (TPMState : Type) := {
  state : TPMState;
  spi_state : Z;
  first_byte : Z;
  addr : list Z;
  data : list Z;
  data_idx : Z;
  addr_idx : Z
}.

Arguments state {TPMState} _.
Arguments spi_state {TPMState} _.
Arguments first_byte {TPMState} _.
Arguments addr {TPMState} _.
Arguments data {TPMState} _.
Arguments data_idx {TPMState} _.
Arguments addr_idx {TPMState} _.

Section Decoder.

Context {TPMState : Type} {core : TisCore TPMState}.
Variable host : Host.

Abbreviation Tts := (TPMStateSpi TPMState).

Definition set_state (v : TPMState) (t : Tts) : Tts :=
  {| state := v; spi_state := spi_state t; first_byte := first_byte t;
     addr := addr t; data := data t;
     data_idx := data_idx t; addr_idx := addr_idx t |}.

Definition set_spi_state (v : Z) (t : Tts) : Tts :=
  {| state := state t; spi_state := v; first_byte := first_byte t;
     addr := addr t; data := data t;
     data_idx := data_idx t; addr_idx := addr_idx t |}.

Definition set_first_byte (v : Z) (t : Tts) : Tts :=
  {| state := state t; spi_state := spi_state t; first_byte := v;
     addr := addr t; data := data t;
     data_idx := data_idx t; addr_idx := addr_idx t |}.

Definition set_addr (v : list Z) (t : Tts) : Tts :=
  {| state := state t; spi_state := spi_state t; first_byte := first_byte t;
     addr := v; data := data t;
     data_idx := data_idx t; addr_idx := addr_idx t |}.

Definition set_data (v : list Z) (t : Tts) : Tts :=
  {| state := state t; spi_state := spi_state t; first_byte := first_byte t;
     addr := addr t; data := v;
     data_idx := data_idx t; addr_idx := addr_idx t |}.

Definition set_data_idx (v : Z) (t : Tts) : Tts :=
  {| state := state t; spi_state := spi_state t; first_byte := first_byte t;
     addr := addr t; data := data t;
     data_idx := v; addr_idx := addr_idx t |}.

Definition set_addr_idx (v : Z) (t : Tts) : Tts :=
  {| state := state t; spi_state := spi_state t; first_byte := first_byte t;
     addr := addr t; data := data t;
     data_idx := data_idx t; addr_idx := v |}.

(** The instance as the object system hands it to [instance_init]: the
    memory is cleared. *)
Definition zeroed (s0 : TPMState) : Tts :=
  {| state := s0; spi_state := 0; first_byte := 0;
     addr := replicate (sizeof_hwaddr host) 0;
     data := replicate sizeof_data 0;
     data_idx := 0; addr_idx := 0 |}.

(** [tpm_tis_spi_initfn] *)
Definition tpm_tis_spi_initfn (sbdev : Tts) : Tts :=
  set_addr_idx 3 sbdev.

Definition init (s0 : TPMState) : Tts := tpm_tis_spi_initfn (zeroed s0).

(** The body shared, textually, by [case STATE_IDLE] and [default]. *)
Definition load_header (tts : Tts) (tx : Z) : Tts :=
  let t1 := set_first_byte (uint8 tx) tts in
  let t2 := set_data_idx (data_expected_size host (first_byte t1)) t1 in
  set_spi_state STATE_ADDRESS t2.

(** [tpm_tis_spi_transfer8].  The function switches on [s->state] and
    assigns [tts->state]; the member of the structure that holds a
    [CMDState] is [spi_state], which is what is read and written here.
    The result is the new device state, the returned word [r] and the
    calls made into the register file. *)
Definition tpm_tis_spi_transfer8 (tts : Tts) (tx : Z)
  : result (Tts * Z * list Access) :=
  let r := 0 in
  if spi_state tts =? STATE_ADDRESS then
    if addr_idx tts =? 0 then
      Ok (set_spi_state STATE_DATA tts, r, [])
    else
      let idx := uint8 (addr_idx tts - 1) in
      match store_byte (addr tts) idx (uint8 tx) with
      | Some bytes => Ok (set_addr bytes (set_addr_idx idx tts), r, [])
      | None => Undefined (AddrOutOfBounds idx)
      end
  else if spi_state tts =? STATE_DATA then
    if data_idx tts =? 0 then
      let a := overlay_value host (addr tts) in
      let size := data_expected_size host (first_byte tts) in
      if rwflag host (first_byte tts) then
        let '(v, s') := tpm_tis_mmio_read (state tts) a size in
        Ok (set_spi_state STATE_IDLE (set_state s' tts), uint32 v,
            [MmioRead a size])
      else
        let d := overlay_value host (data tts) in
        let s' := tpm_tis_mmio_write (state tts) a d size in
        Ok (set_spi_state STATE_IDLE (set_state s' tts), r,
            [MmioWrite a d size])
    else
      let idx := uint8 (data_idx tts - 1) in
      match store_byte (data tts) idx (uint8 tx) with
      | Some bytes => Ok (set_data bytes (set_data_idx idx tts), r, [])
      | None => Undefined (DataOutOfBounds idx)
      end
  else if spi_state tts =? STATE_IDLE then
    Ok (load_header tts tx, r, [])
  else
    Ok (load_header tts tx, r, []).

(** [tpm_tis_spi_reset]: the device reset handler, which resets the TIS
    core and returns.  It makes no call to the register file. *)
Definition tpm_tis_spi_reset (sbdev : Tts) : Tts * list Access :=
  (set_state (tpm_tis_reset (state sbdev)) sbdev, []).

(** [n] consecutive resets, with the register-file calls they make. *)
Fixpoint resets (n : nat) (sbdev : Tts) : Tts * list Access :=
  match n with
  | O => (sbdev, [])
  | S k =>
      let '(t1, ev) := tpm_tis_spi_reset sbdev in
      let '(t2, evs) := resets k t1 in
      (t2, ev ++ evs)
  end.

(** The bus presents the bytes of a transfer one at a time; the replies and
    the register-file calls are collected in order. *)
Fixpoint transfer_bytes (tts : Tts) (txs : list Z)
  : result (Tts * list Z * list Access) :=
  match txs with
  | [] => Ok (tts, [], [])
  | tx :: rest =>
      match tpm_tis_spi_transfer8 tts tx with
      | Undefined f => Undefined f
      | Ok (t1, r, ev) =>
          match transfer_bytes t1 rest with
          | Undefined f => Undefined f
          | Ok (t2, rs, evs) => Ok (t2, r :: rs, ev ++ evs)
          end
      end
  end.

(** States the device can be in: after initialisation, after a byte, after
    a reset. *)
Inductive reachable : Tts -> Prop :=
| reach_init s0 : reachable (init s0)
| reach_transfer tts tx tts' r ev :
    reachable tts ->
    tpm_tis_spi_transfer8 tts tx = Ok (tts', r, ev) ->
    reachable tts'
| reach_reset tts :
    reachable tts ->
    reachable (fst (tpm_tis_spi_reset tts)).

(** A run of calls none of which, except possibly the last, leaves the
    decoder in [STATE_IDLE]: a transaction, or the part of one that has
    been clocked so far. *)
Inductive transaction : Tts -> list Z -> Tts -> list Access -> Prop :=
| transaction_last tts tx tts' r ev :
    tpm_tis_spi_transfer8 tts tx = Ok (tts', r, ev) ->
    transaction tts [tx] tts' ev
| transaction_more tts tx t1 r ev txs tts' evs :
    tpm_tis_spi_transfer8 tts tx = Ok (t1, r, ev) ->
    spi_state t1 <> STATE_IDLE ->
    transaction t1 txs tts' evs ->
    transaction tts (tx :: txs) tts' (ev ++ evs).

(** The decoder's own fields agree (the TIS core may differ). *)
Definition same_decoder (t1 t2 : Tts) : Prop :=
  spi_state t1 = spi_state t2 /\ first_byte t1 = first_byte t2 /\
  addr t1 = addr t2 /\ data t1 = data t2 /\
  data_idx t1 = data_idx t2 /\ addr_idx t1 = addr_idx t2.

(** A phase value [c] that behaves like a terminal error state: a byte
    received in it is answered without a register access and leaves the
    phase at [c]. *)
Definition confused_phase (c : Z) : Prop :=
  forall tts tx, spi_state tts = c ->
    exists tts' r,
      tpm_tis_spi_transfer8 tts tx = Ok (tts', r, []) /\ spi_state tts' = c.

(** The branches of [tpm_tis_spi_transfer8] that return, as a relation
    between the state before, the byte, the state after, the reply and the
    register-file calls. *)
Inductive transfer8_branch (tts : Tts) (tx : Z)
  : Tts -> Z -> list Access -> Prop :=
| branch_header :
    spi_state tts <> STATE_ADDRESS ->
    spi_state tts <> STATE_DATA ->
    transfer8_branch tts tx (load_header tts tx) 0 []
| branch_address_done :
    spi_state tts = STATE_ADDRESS ->
    addr_idx tts = 0 ->
    transfer8_branch tts tx (set_spi_state STATE_DATA tts) 0 []
| branch_address_store bytes :
    spi_state tts = STATE_ADDRESS ->
    addr_idx tts <> 0 ->
    store_byte (addr tts) (uint8 (addr_idx tts - 1)) (uint8 tx) = Some bytes ->
    transfer8_branch tts tx
      (set_addr bytes (set_addr_idx (uint8 (addr_idx tts - 1)) tts)) 0 []
| branch_data_store bytes :
    spi_state tts = STATE_DATA ->
    data_idx tts <> 0 ->
    store_byte (data tts) (uint8 (data_idx tts - 1)) (uint8 tx) = Some bytes ->
    transfer8_branch tts tx
      (set_data bytes (set_data_idx (uint8 (data_idx tts - 1)) tts)) 0 []
| branch_read v s' :
    spi_state tts = STATE_DATA ->
    data_idx tts = 0 ->
    rwflag host (first_byte tts) = true ->
    tpm_tis_mmio_read (state tts) (overlay_value host (addr tts))
      (data_expected_size host (first_byte tts)) = (v, s') ->
    transfer8_branch tts tx
      (set_spi_state STATE_IDLE (set_state s' tts)) (uint32 v)
      [MmioRead (overlay_value host (addr tts))
         (data_expected_size host (first_byte tts))]
| branch_write :
    spi_state tts = STATE_DATA ->
    data_idx tts = 0 ->
    rwflag host (first_byte tts) = false ->
    transfer8_branch tts tx
      (set_spi_state STATE_IDLE
         (set_state
            (tpm_tis_mmio_write (state tts) (overlay_value host (addr tts))
               (overlay_value host (data tts))
               (data_expected_size host (first_byte tts))) tts)) 0
      [MmioWrite (overlay_value host (addr tts))
         (overlay_value host (data tts))
         (data_expected_size host (first_byte tts))].

(** What holds of the decoder's fields in every state the device reaches. *)
Definition framed (tts : Tts) : Prop :=
  (spi_state tts = STATE_IDLE \/ spi_state tts = STATE_ADDRESS \/
   spi_state tts = STATE_DATA) /\
  0 <= addr_idx tts <= 3 /\
  0 <= data_idx tts <= 63 /\
  length (addr tts) = sizeof_hwaddr host /\
  length (data tts) = sizeof_data.

End Decoder.

(** The header decoding in the words of the specification: direction in
    bit 7, size in bits 6..1, clamped to the four bytes of the buffer. *)
Definition spec_direction (h : Z) : bool := Z.testbit h 7.
Definition spec_clamped_size (h : Z) : Z :=
  Z.min (Z.land (Z.shiftr h 1) 63) 4.

(** ** Runs of the decoder, seen from the bus *)

(** The address a register-file call names. *)
Definition access_addr (a : Access) : Z :=
  match a with
  | MmioRead addr _ => addr
  | MmioWrite addr _ _ => addr
  end.

Section Runs.

Context {TPMState : Type} {core : TisCore TPMState}.
Variable host : Host.

(** Whether every byte of [txs] that the decoder takes as a header (one
    received outside the address and data phases) declares no more data
    bytes than the data array holds.  Bytes after an undefined call are not
    looked at. *)
Fixpoint headers_fit (tts : TPMStateSpi TPMState) (txs : list Z) : bool :=
  match txs with
  | [] => true
  | tx :: rest =>
      ((spi_state tts =? STATE_ADDRESS) || (spi_state tts =? STATE_DATA)
       || (data_expected_size host (uint8 tx) <=? Z.of_nat sizeof_data))
      && match tpm_tis_spi_transfer8 host tts tx with
         | Ok (t1, _, _) => headers_fit t1 rest
         | Undefined _ => true
         end
  end.

End Runs.

(** * The I2C-to-network relay of [net_i2c.c]

    A second device of the repository: bytes written to it over I2C are
    collected and forwarded as one network packet, bytes read from it come
    from the network.  Its structure [NetI2C], the events of the I2C bus
    and the network calls are declared in headers outside the file. *)

Module Relay.

(** The modes of the file's anonymous enum. *)
Inductive Mode :=
| NET_I2C_IDLE
| NET_I2C_WRITE_DATA
| NET_I2C_READ_DATA
| NET_I2C_DONE
| NET_I2C_CONFUSED.

(** The bus events [net_i2c_event] names in its switch; [I2C_OTHER] stands
    for any other enumerator of [enum i2c_event], which the switch, having
    no default, lets through. *)
Inductive i2c_event :=
| I2C_START_RECV
| I2C_START_SEND
| I2C_FINISH
| I2C_NACK
| I2C_OTHER.

(** How a call ends: it returns, or [BADF] exits the process, or an
    [assert] fails. *)
Inductive outcome (A : Type) :=
| Returns (a : A)
| Exits
| Aborts.

Arguments Returns {A} a.
Arguments Exits {A}.
Arguments Aborts {A}.

(** The network client behind the device.  [qemu_send_packet] is given the
    packet and returns a size; [qemu_receive_packet] is given the byte its
    buffer argument points to and returns a size and the byte found there
    afterwards. *)
Class NetClient (Net : Type) := {
  qemu_send_packet : Net -> list Z -> Z * Net;
  qemu_receive_packet : Net -> Z -> (Z * Z) * Net
}.

(** The fields of [NetI2C] the file uses.  [data_len] counts the bytes
    collected in [data_buf]; [sizeof(dev->data_buf)] is the length of the
    list. *)
Record NetI2C (Net : Type) := {
  netdev : Net;
  data_buf : list Z;
  data_len : nat;
  mode : Mode
}.

Arguments netdev {Net} _.
Arguments data_buf {Net} _.
Arguments data_len {Net} _.
Arguments mode {Net} _.

(** A client that queues what the device sends, accepts every packet whole
    and answers every read with the byte [0x5A]. *)
Definition queue_client : NetClient (list (list Z)) := {|
  qemu_send_packet := fun q pkt => (Z.of_nat (length pkt), q ++ [pkt]);
  qemu_receive_packet := fun q _ => ((1, 0x5A), q)
|}.

(** What the bus does to the device: an event, a byte read, a byte
    written. *)
Inductive call :=
| Event (e : i2c_event)
| Recv
| Send (data : Z).

Section Device.

Context {Net : Type} {net : NetClient Net}.

(** Whether [DEBUG_NET_I2C] is defined.  The file defines it, so the
    device as written is the one at [true]; at [false] the macros are
    those of the [#else] branch. *)
Variable DEBUG_NET_I2C : bool.

Abbreviation Dev := (NetI2C Net).

Definition set_netdev (v : Net) (d : Dev) : Dev :=
  {| netdev := v; data_buf := data_buf d; data_len := data_len d;
     mode := mode d |}.

Definition set_mode (v : Mode) (d : Dev) : Dev :=
  {| netdev := netdev d; data_buf := data_buf d; data_len := data_len d;
     mode := v |}.

Definition set_data_len (v : nat) (d : Dev) : Dev :=
  {| netdev := netdev d; data_buf := data_buf d; data_len := v;
     mode := mode d |}.

Definition set_data_buf (v : list Z) (d : Dev) : Dev :=
  {| netdev := netdev d; data_buf := v; data_len := data_len d;
     mode := mode d |}.

(** [BADF]: with the debug macros the message is followed by [exit(1)];
    without them the function carries on with [k]. *)
Definition BADF {A : Type} (k : outcome A) : outcome A :=
  if DEBUG_NET_I2C then Exits else k.

(** [net_i2c_do_write]: the first [data_len] bytes of the buffer go out as
    one packet, and the size the client returns must be [data_len].  The
    result carries the packets handed to the client. *)
Definition net_i2c_do_write (dev : Dev) : outcome (Dev * list (list Z)) :=
  let pkt := take (data_len dev) (data_buf dev) in
  let '(size, n') := qemu_send_packet (netdev dev) pkt in
  if size =? Z.of_nat (data_len dev)
  then Returns (set_netdev n' dev, [pkt])
  else Aborts.

(** [net_i2c_event]; it returns 0. *)
Definition net_i2c_event (dev : Dev) (event : i2c_event)
  : outcome (Dev * Z * list (list Z)) :=
  match event with
  | I2C_START_SEND =>
      match mode dev with
      | NET_I2C_IDLE => Returns (set_mode NET_I2C_WRITE_DATA dev, 0, [])
      | _ => BADF (Returns (set_mode NET_I2C_CONFUSED dev, 0, []))
      end
  | I2C_START_RECV =>
      match mode dev with
      | NET_I2C_IDLE => Returns (set_mode NET_I2C_READ_DATA dev, 0, [])
      | NET_I2C_WRITE_DATA =>
          if (data_len dev =? 0)%nat then
            BADF (Returns (set_mode NET_I2C_CONFUSED dev, 0, []))
          else
            match net_i2c_do_write dev with
            | Returns (d, pkts) =>
                Returns (set_mode NET_I2C_READ_DATA d, 0, pkts)
            | Exits => Exits
            | Aborts => Aborts
            end
      | _ => BADF (Returns (set_mode NET_I2C_CONFUSED dev, 0, []))
      end
  | I2C_FINISH =>
      let finish (d : Dev) (pkts : list (list Z)) :=
        Returns (set_data_len 0 (set_mode NET_I2C_IDLE d), 0, pkts) in
      match mode dev with
      | NET_I2C_WRITE_DATA =>
          match net_i2c_do_write dev with
          | Returns (d, pkts) => finish d pkts
          | Exits => Exits
          | Aborts => Aborts
          end
      | NET_I2C_READ_DATA => BADF (finish dev [])
      | _ => finish dev []
      end
  | I2C_NACK =>
      match mode dev with
      | NET_I2C_DONE => Returns (dev, 0, [])
      | NET_I2C_READ_DATA => Returns (set_mode NET_I2C_DONE dev, 0, [])
      | _ => BADF (Returns (set_mode NET_I2C_CONFUSED dev, 0, []))
      end
  | I2C_OTHER => Returns (dev, 0, [])
  end.

(** [net_i2c_recv]: the byte returned starts as [0xff]. *)
Definition net_i2c_recv (dev : Dev) : outcome (Dev * Z) :=
  let ret := 0xff in
  match mode dev with
  | NET_I2C_READ_DATA =>
      let '((size, ret'), n') := qemu_receive_packet (netdev dev) ret in
      if size =? 1 then Returns (set_netdev n' dev, uint8 ret') else Aborts
  | _ => BADF (Returns (set_mode NET_I2C_CONFUSED dev, ret))
  end.

(** [net_i2c_send]; it returns 0. *)
Definition net_i2c_send (dev : Dev) (data : Z) : outcome (Dev * Z) :=
  match mode dev with
  | NET_I2C_WRITE_DATA =>
      if (length (data_buf dev) <=? data_len dev)%nat then
        BADF (Returns (dev, 0))
      else
        Returns (set_data_len (S (data_len dev))
                   (set_data_buf (<[data_len dev := uint8 data]> (data_buf dev))
                      dev), 0)
  | _ => BADF (Returns (dev, 0))
  end.

(** One call of the bus: the device after it, the value returned and the
    packets handed to the network client. *)
Definition step (dev : Dev) (c : call) : outcome (Dev * Z * list (list Z)) :=
  match c with
  | Event e => net_i2c_event dev e
  | Recv =>
      match net_i2c_recv dev with
      | Returns (d, r) => Returns (d, r, [])
      | Exits => Exits
      | Aborts => Aborts
      end
  | Send data =>
      match net_i2c_send dev data with
      | Returns (d, r) => Returns (d, r, [])
      | Exits => Exits
      | Aborts => Aborts
      end
  end.

(** A sequence of calls, up to the first that does not return. *)
Fixpoint run (dev : Dev) (cs : list call)
  : outcome (Dev * list Z * list (list Z)) :=
  match cs with
  | [] => Returns (dev, [], [])
  | c :: rest =>
      match step dev c with
      | Returns (d1, r, pk) =>
          match run d1 rest with
          | Returns (d2, rs, pks) => Returns (d2, r :: rs, pk ++ pks)
          | Exits => Exits
          | Aborts => Aborts
          end
      | Exits => Exits
      | Aborts => Aborts
      end
  end.

(** The instance once realized: cleared memory, so idle and empty, with a
    buffer of [size] bytes and the client found by [net_i2c_realize]. *)
Definition init (size : nat) (n : Net) : Dev :=
  {| netdev := n; data_buf := replicate size 0; data_len := 0;
     mode := NET_I2C_IDLE |}.

(** What a returning call leaves behind, whatever the build: the buffer
    keeps its size, the count stays within it, and an idle device has an
    empty buffer. *)
Definition relay_inv (size : nat) (dev : Dev) : Prop :=
  length (data_buf dev) = size /\
  (data_len dev <= size)%nat /\
  (mode dev = NET_I2C_IDLE -> data_len dev = 0%nat).

(** The devices the bus can find: the realized one, and any a returning
    call leaves. *)
Inductive reachable (size : nat) : Dev -> Prop :=
| reach_init n : reachable size (init size n)
| reach_step dev c dev' r pk :
    reachable size dev ->
    step dev c = Returns (dev', r, pk) ->
    reachable size dev'.

End Device.

End Relay.

(** * Properties *)

(** ** Integers, bit-fields and overlays *)

Lemma uint8_range z : 0 <= uint8 z < 256.
Proof. unfold uint8. apply Z.mod_pos_bound. lia. Qed.

Lemma uint8_small z : 0 <= z < 256 -> uint8 z = z.
Proof. intros Hz. unfold uint8. apply Z.mod_small. lia. Qed.

Lemma uint8_pred (n : nat) :
  (n < 256)%nat -> uint8 (Z.of_nat (S n) - 1) = Z.of_nat n.
Proof.
  intros Hn. replace (Z.of_nat (S n) - 1) with (Z.of_nat n) by lia.
  apply uint8_small. lia.
Qed.

Lemma land63_range z : 0 <= Z.land z 63 <= 63.
Proof.
  assert (Z.land z 63 = z mod 64) as ->.
  { change 63 with (Z.ones 6). rewrite Z.land_ones by lia. reflexivity. }
  pose proof (Z.mod_pos_bound z 64 ltac:(lia)). lia.
Qed.

Lemma data_expected_size_range host b : 0 <= data_expected_size host b <= 63.
Proof. unfold data_expected_size. destruct (big_endian host); apply land63_range. Qed.

Lemma testbit_uint8 z n : 0 <= n < 8 -> Z.testbit (uint8 z) n = Z.testbit z n.
Proof. intros Hn. unfold uint8. apply Z.mod_pow2_bits_low. lia. Qed.

Lemma land63_uint8 z : Z.land (uint8 z) 63 = z mod 64.
Proof.
  unfold uint8. change 63 with (Z.ones 6). rewrite Z.land_ones by lia.
  change (2 ^ 8) with 256. change (2 ^ 6) with 64.
  apply Z.mod_mod_divide. exists 4. reflexivity.
Qed.

Lemma le_value_zeros l n : le_value (l ++ replicate n 0) = le_value l.
Proof.
  induction l as [|b l IH]; simpl.
  - induction n as [|n IHn]; simpl; [reflexivity|].
    rewrite IHn. reflexivity.
  - rewrite IH. reflexivity.
Qed.

Lemma le_value_three b0 b1 b2 n :
  le_value ([b0; b1; b2] ++ replicate n 0)
  = Z.lor (Z.shiftl b2 16) (Z.lor (Z.shiftl b1 8) b0).
Proof.
  rewrite le_value_zeros. simpl.
  rewrite Z.shiftl_0_l, Z.lor_0_r.
  rewrite Z.shiftl_lor, Z.shiftl_shiftl by lia. simpl.
  rewrite (Z.lor_comm b0), (Z.lor_comm (Z.shiftl b1 8)), <- Z.lor_assoc.
  reflexivity.
Qed.

Lemma replicate_zero_middle (a d : nat) :
  replicate a 0 ++ 0 :: replicate d 0 = 0 :: replicate (a + d) 0.
Proof.
  induction a as [|a IH]; simpl; [reflexivity|].
  rewrite IH. reflexivity.
Qed.

(** ** Stores into the byte arrays *)

Lemma store_byte_in (bytes : list Z) (i : nat) v :
  (i < length bytes)%nat ->
  store_byte bytes (Z.of_nat i) v = Some (<[i := v]> bytes).
Proof.
  intros Hi. unfold store_byte.
  destruct (decide _) as [_|Hn]; [|lia].
  rewrite Nat2Z.id. reflexivity.
Qed.

Lemma store_byte_out (bytes : list Z) idx v :
  Z.of_nat (length bytes) <= idx -> store_byte bytes idx v = None.
Proof.
  intros Hi. unfold store_byte.
  destruct (decide _) as [Hn|_]; [lia|reflexivity].
Qed.

Lemma store_byte_length (bytes bytes' : list Z) idx v :
  store_byte bytes idx v = Some bytes' -> length bytes' = length bytes.
Proof.
  unfold store_byte. destruct (decide _); [|discriminate].
  intros [= <-]. apply length_insert.
Qed.

Lemma drop_insert_at (l : list Z) (i : nat) v :
  (i < length l)%nat -> drop i (<[i := v]> l) = v :: drop (S i) l.
Proof.
  revert i. induction l as [|a l IH]; intros [|i] Hi; simpl in *; try lia.
  - reflexivity.
  - apply IH. lia.
Qed.

(** ** One call of [tpm_tis_spi_transfer8], phase by phase *)

Section Steps.

Context {TPMState : Type} {core : TisCore TPMState}.
Variable host : Host.

Implicit Types tts : TPMStateSpi TPMState.

Lemma transfer8_idle tts tx :
  spi_state tts = STATE_IDLE ->
  tpm_tis_spi_transfer8 host tts tx = Ok (load_header host tts tx, 0, []).
Proof. intros H. unfold tpm_tis_spi_transfer8. rewrite H. reflexivity. Qed.

Lemma transfer8_default tts tx :
  spi_state tts <> STATE_IDLE ->
  spi_state tts <> STATE_ADDRESS ->
  spi_state tts <> STATE_DATA ->
  tpm_tis_spi_transfer8 host tts tx = Ok (load_header host tts tx, 0, []).
Proof.
  intros Hi Ha Hd. unfold tpm_tis_spi_transfer8.
  destruct (Z.eqb_spec (spi_state tts) STATE_ADDRESS); [contradiction|].
  destruct (Z.eqb_spec (spi_state tts) STATE_DATA); [contradiction|].
  destruct (Z.eqb_spec (spi_state tts) STATE_IDLE); reflexivity.
Qed.

Lemma transfer8_header tts tx :
  spi_state tts <> STATE_ADDRESS ->
  spi_state tts <> STATE_DATA ->
  tpm_tis_spi_transfer8 host tts tx = Ok (load_header host tts tx, 0, []).
Proof.
  intros Ha Hd. destruct (Z.eq_dec (spi_state tts) STATE_IDLE) as [Hi|Hi].
  - apply transfer8_idle. exact Hi.
  - apply transfer8_default; assumption.
Qed.

Lemma transfer8_address_done tts tx :
  spi_state tts = STATE_ADDRESS -> addr_idx tts = 0 ->
  tpm_tis_spi_transfer8 host tts tx = Ok (set_spi_state STATE_DATA tts, 0, []).
Proof.
  intros Hs Hi. unfold tpm_tis_spi_transfer8. rewrite Hs, Hi. reflexivity.
Qed.

Lemma transfer8_address_store tts tx (n : nat) :
  spi_state tts = STATE_ADDRESS -> addr_idx tts = Z.of_nat (S n) ->
  (n < length (addr tts))%nat -> (n < 256)%nat ->
  tpm_tis_spi_transfer8 host tts tx
  = Ok (set_addr (<[n := uint8 tx]> (addr tts))
          (set_addr_idx (Z.of_nat n) tts), 0, []).
Proof.
  intros Hs Hi Hlen Hn. unfold tpm_tis_spi_transfer8. rewrite Hs, Hi.
  change (STATE_ADDRESS =? STATE_ADDRESS) with true. cbv iota.
  destruct (Z.eqb_spec (Z.of_nat (S n)) 0) as [E|_]; [lia|].
  rewrite uint8_pred by assumption.
  rewrite store_byte_in by assumption. reflexivity.
Qed.

Lemma transfer8_data_store tts tx (n : nat) :
  spi_state tts = STATE_DATA -> data_idx tts = Z.of_nat (S n) ->
  (n < length (data tts))%nat -> (n < 256)%nat ->
  tpm_tis_spi_transfer8 host tts tx
  = Ok (set_data (<[n := uint8 tx]> (data tts))
          (set_data_idx (Z.of_nat n) tts), 0, []).
Proof.
  intros Hs Hi Hlen Hn. unfold tpm_tis_spi_transfer8. rewrite Hs, Hi.
  change (STATE_DATA =? STATE_ADDRESS) with false.
  change (STATE_DATA =? STATE_DATA) with true. cbv iota.
  destruct (Z.eqb_spec (Z.of_nat (S n)) 0) as [E|_]; [lia|].
  rewrite uint8_pred by assumption.
  rewrite store_byte_in by assumption. reflexivity.
Qed.

Lemma transfer8_data_overflow tts tx :
  spi_state tts = STATE_DATA ->
  Z.of_nat (length (data tts)) < data_idx tts <= 256 ->
  tpm_tis_spi_transfer8 host tts tx
  = Undefined (DataOutOfBounds (data_idx tts - 1)).
Proof.
  intros Hs Hi. unfold tpm_tis_spi_transfer8. rewrite Hs.
  change (STATE_DATA =? STATE_ADDRESS) with false.
  change (STATE_DATA =? STATE_DATA) with true. cbv iota.
  destruct (Z.eqb_spec (data_idx tts) 0) as [E|_]; [lia|].
  rewrite (uint8_small (data_idx tts - 1)) by lia.
  rewrite store_byte_out by lia. reflexivity.
Qed.

Lemma transfer8_write tts tx :
  spi_state tts = STATE_DATA -> data_idx tts = 0 ->
  rwflag host (first_byte tts) = false ->
  tpm_tis_spi_transfer8 host tts tx
  = Ok (set_spi_state STATE_IDLE
          (set_state
             (tpm_tis_mmio_write (state tts) (overlay_value host (addr tts))
                (overlay_value host (data tts))
                (data_expected_size host (first_byte tts))) tts),
        0,
        [MmioWrite (overlay_value host (addr tts))
           (overlay_value host (data tts))
           (data_expected_size host (first_byte tts))]).
Proof.
  intros Hs Hi Hrw. unfold tpm_tis_spi_transfer8. rewrite Hs, Hi, Hrw.
  reflexivity.
Qed.

Lemma transfer8_read tts tx :
  spi_state tts = STATE_DATA -> data_idx tts = 0 ->
  rwflag host (first_byte tts) = true ->
  tpm_tis_spi_transfer8 host tts tx
  = Ok (set_spi_state STATE_IDLE
          (set_state
             (snd (tpm_tis_mmio_read (state tts)
                     (overlay_value host (addr tts))
                     (data_expected_size host (first_byte tts)))) tts),
        uint32 (fst (tpm_tis_mmio_read (state tts)
                       (overlay_value host (addr tts))
                       (data_expected_size host (first_byte tts)))),
        [MmioRead (overlay_value host (addr tts))
           (data_expected_size host (first_byte tts))]).
Proof.
  intros Hs Hi Hrw. unfold tpm_tis_spi_transfer8. rewrite Hs, Hi, Hrw.
  change (STATE_DATA =? STATE_ADDRESS) with false.
  change (STATE_DATA =? STATE_DATA) with true.
  change (0 =? 0) with true. cbv iota.
  destruct (tpm_tis_mmio_read _ _ _) as [v s']. reflexivity.
Qed.

End Steps.

(** ** Case analysis of a call, and what every reachable state satisfies *)

Section Invariant.

Context {TPMState : Type} {core : TisCore TPMState}.
Variable host : Host.

Implicit Types tts : TPMStateSpi TPMState.

Lemma transfer8_inv tts tx tts' r ev :
  tpm_tis_spi_transfer8 host tts tx = Ok (tts', r, ev) ->
  transfer8_branch host tts tx tts' r ev.
Proof.
  unfold tpm_tis_spi_transfer8.
  destruct (Z.eqb_spec (spi_state tts) STATE_ADDRESS) as [Ha|Ha].
  - destruct (Z.eqb_spec (addr_idx tts) 0) as [Hi|Hi].
    + intros [= <- <- <-]. by constructor.
    + destruct (store_byte _ _ _) as [bytes|] eqn:Hst; [|discriminate].
      intros [= <- <- <-]. by constructor.
  - destruct (Z.eqb_spec (spi_state tts) STATE_DATA) as [Hd|Hd].
    + destruct (Z.eqb_spec (data_idx tts) 0) as [Hi|Hi].
      * destruct (rwflag host (first_byte tts)) eqn:Hrw.
        -- destruct (tpm_tis_mmio_read _ _ _) as [v s'] eqn:Hrd.
           intros [= <- <- <-]. by econstructor.
        -- intros [= <- <- <-]. by constructor.
      * destruct (store_byte _ _ _) as [bytes|] eqn:Hst; [|discriminate].
        intros [= <- <- <-]. by constructor.
    + destruct (Z.eqb_spec (spi_state tts) STATE_IDLE);
        intros [= <- <- <-]; by constructor.
Qed.

Lemma transfer8_undefined tts tx f :
  tpm_tis_spi_transfer8 host tts tx = Undefined f ->
  (spi_state tts = STATE_ADDRESS /\ addr_idx tts <> 0 /\
   store_byte (addr tts) (uint8 (addr_idx tts - 1)) (uint8 tx) = None) \/
  (spi_state tts = STATE_DATA /\ data_idx tts <> 0 /\
   store_byte (data tts) (uint8 (data_idx tts - 1)) (uint8 tx) = None).
Proof.
  unfold tpm_tis_spi_transfer8.
  destruct (Z.eqb_spec (spi_state tts) STATE_ADDRESS) as [Ha|Ha].
  - destruct (Z.eqb_spec (addr_idx tts) 0) as [Hi|Hi]; [discriminate|].
    destruct (store_byte (addr tts) _ _) eqn:Hst; [discriminate|].
    intros _. left. auto.
  - destruct (Z.eqb_spec (spi_state tts) STATE_DATA) as [Hd|Hd].
    + destruct (Z.eqb_spec (data_idx tts) 0) as [Hi|Hi].
      * destruct (rwflag host (first_byte tts)); [|discriminate].
        destruct (tpm_tis_mmio_read _ _ _) as [v s']. discriminate.
      * destruct (store_byte (data tts) _ _) eqn:Hst; [discriminate|].
        intros _. right. auto.
    + destruct (Z.eqb_spec (spi_state tts) STATE_IDLE); discriminate.
Qed.

Lemma framed_init (s0 : TPMState) :
  framed host (init host s0).
Proof.
  unfold framed, init, tpm_tis_spi_initfn, zeroed. simpl.
  rewrite !length_replicate. unfold STATE_IDLE. repeat split; auto; lia.
Qed.

Lemma framed_transfer tts tx tts' r ev :
  framed host tts ->
  tpm_tis_spi_transfer8 host tts tx = Ok (tts', r, ev) ->
  framed host tts'.
Proof.
  intros (Hs & Ha & Hd & Hla & Hld) Hstep.
  apply transfer8_inv in Hstep.
  destruct Hstep as [? ?|? ?|bytes ? ? Hst|bytes ? ? Hst|v s' ? ? ?|? ? ?];
    unfold framed; simpl.
  - pose proof (data_expected_size_range host (uint8 tx)).
    repeat split; auto; lia.
  - repeat split; auto; lia.
  - apply store_byte_length in Hst.
    rewrite (uint8_small (addr_idx tts - 1)) by lia.
    repeat split; auto; try lia; congruence.
  - apply store_byte_length in Hst.
    rewrite (uint8_small (data_idx tts - 1)) by lia.
    repeat split; auto; try lia; congruence.
  - repeat split; auto; lia.
  - repeat split; auto; lia.
Qed.

Lemma framed_reset tts :
  framed host tts -> framed host (fst (tpm_tis_spi_reset tts)).
Proof. intros H. exact H. Qed.

Lemma reachable_framed tts :
  reachable host tts -> framed host tts.
Proof.
  induction 1 as [s0|tts tx tts' r ev _ IH Hstep|tts _ IH].
  - apply framed_init.
  - eapply framed_transfer; eassumption.
  - apply framed_reset, IH.
Qed.

End Invariant.

(** ** Runs of calls: the address phase, the data phase, a whole frame *)

Section Phases.

Context {TPMState : Type} {core : TisCore TPMState}.
Variable host : Host.

Implicit Types tts : TPMStateSpi TPMState.

Lemma transfer_bytes_app tts l1 l2 t1 rs1 ev1 :
  transfer_bytes host tts l1 = Ok (t1, rs1, ev1) ->
  transfer_bytes host tts (l1 ++ l2)
  = match transfer_bytes host t1 l2 with
    | Ok (t2, rs2, ev2) => Ok (t2, rs1 ++ rs2, ev1 ++ ev2)
    | Undefined f => Undefined f
    end.
Proof.
  revert tts rs1 ev1. induction l1 as [|tx l1 IH]; intros tts rs1 ev1; simpl.
  - intros [= -> <- <-].
    destruct (transfer_bytes host t1 l2) as [[[t2 rs2] ev2]|f]; reflexivity.
  - destruct (tpm_tis_spi_transfer8 host tts tx) as [[[ta r] ev]|f];
      [|discriminate].
    destruct (transfer_bytes host ta l1) as [[[tb rs] evs]|f] eqn:Hrun;
      [|discriminate].
    intros [= -> <- <-]. rewrite (IH _ _ _ Hrun).
    destruct (transfer_bytes host t1 l2) as [[[t2 rs2] ev2]|f]; [|reflexivity].
    rewrite <- app_assoc. reflexivity.
Qed.

Lemma transfer_bytes_snoc tts l tx t1 rs1 ev1 t2 r ev :
  transfer_bytes host tts l = Ok (t1, rs1, ev1) ->
  tpm_tis_spi_transfer8 host t1 tx = Ok (t2, r, ev) ->
  transfer_bytes host tts (l ++ [tx]) = Ok (t2, rs1 ++ [r], ev1 ++ ev).
Proof.
  intros Hrun Hstep. rewrite (transfer_bytes_app _ _ _ _ _ _ Hrun).
  cbn [transfer_bytes]. rewrite Hstep. rewrite app_nil_r. reflexivity.
Qed.

(** The address phase stores its bytes downwards from [addr_idx - 1]: the
    first byte received lands at the highest index. *)
Lemma address_phase bs : forall tts,
  spi_state tts = STATE_ADDRESS ->
  addr_idx tts = Z.of_nat (length bs) ->
  (length bs <= length (addr tts))%nat ->
  (length bs <= 256)%nat ->
  transfer_bytes host tts bs
  = Ok (set_addr (rev (uint8 <$> bs) ++ drop (length bs) (addr tts))
          (set_addr_idx 0 tts),
        replicate (length bs) 0, []).
Proof.
  induction bs as [|b bs IH]; intros tts Hs Hi Hlen H256; simpl in *.
  - destruct tts; simpl in *. subst. reflexivity.
  - rewrite (transfer8_address_store host tts b (length bs)) by (auto; lia).
    rewrite IH; simpl; rewrite ?length_insert; auto; try lia.
    rewrite drop_insert_at by lia.
    rewrite <- app_assoc. reflexivity.
Qed.

(** The data phase does the same with [data_idx] and the data bytes. *)
Lemma data_phase bs : forall tts,
  spi_state tts = STATE_DATA ->
  data_idx tts = Z.of_nat (length bs) ->
  (length bs <= length (data tts))%nat ->
  (length bs <= 256)%nat ->
  transfer_bytes host tts bs
  = Ok (set_data (rev (uint8 <$> bs) ++ drop (length bs) (data tts))
          (set_data_idx 0 tts),
        replicate (length bs) 0, []).
Proof.
  induction bs as [|b bs IH]; intros tts Hs Hi Hlen H256; simpl in *.
  - destruct tts; simpl in *. subst. reflexivity.
  - rewrite (transfer8_data_store host tts b (length bs)) by (auto; lia).
    rewrite IH; simpl; rewrite ?length_insert; auto; try lia.
    rewrite drop_insert_at by lia.
    rewrite <- app_assoc. reflexivity.
Qed.

(** A frame up to, and without, the call that makes the register access:
    the header, as many address bytes as [addr_idx] asks for, the byte on
    which the decoder leaves the address phase, and as many data bytes as
    the header declares. *)
Lemma frame_prefix tts h adr x ds :
  spi_state tts = STATE_IDLE ->
  addr_idx tts = Z.of_nat (length adr) ->
  (length adr <= length (addr tts))%nat ->
  (length adr <= 256)%nat ->
  data_expected_size host (uint8 h) = Z.of_nat (length ds) ->
  (length ds <= length (data tts))%nat ->
  transfer_bytes host tts (h :: adr ++ x :: ds)
  = Ok ({| state := state tts; spi_state := STATE_DATA;
           first_byte := uint8 h;
           addr := rev (uint8 <$> adr) ++ drop (length adr) (addr tts);
           data := rev (uint8 <$> ds) ++ drop (length ds) (data tts);
           data_idx := 0; addr_idx := 0 |},
        replicate (2 + length adr + length ds) 0, []).
Proof.
  intros Hs Hai Halen Ha256 Hsize Hdlen.
  pose proof (data_expected_size_range host (uint8 h)) as Hrange.
  change (h :: adr ++ x :: ds) with ([h] ++ adr ++ [x] ++ ds).
  erewrite transfer_bytes_app; cycle 1.
  { cbn [transfer_bytes]. rewrite transfer8_idle by assumption. reflexivity. }
  erewrite transfer_bytes_app; cycle 1.
  { apply address_phase; simpl; auto. }
  erewrite transfer_bytes_app; cycle 1.
  { cbn [transfer_bytes]. rewrite transfer8_address_done by reflexivity.
    reflexivity. }
  rewrite data_phase; simpl; auto; try lia.
  rewrite replicate_zero_middle. reflexivity.
Qed.

End Phases.

(** ** Header decoding *)

Lemma land63_eq_mod z : Z.land z 63 = z mod 64.
Proof. change 63 with (Z.ones 6). rewrite Z.land_ones by lia. reflexivity. Qed.

(** C3, as stated, fails: the header [0x02] has 1 in bits 6..1, and the
    decoder loads 2 into [data_idx]. *)
Lemma C3_size_field_is_not_bits_6_to_1 :
  ~ (forall h tts',
       tpm_tis_spi_transfer8 (core := fixed_core 0) le64 (init le64 tt) h
       = Ok (tts', 0, []) ->
       data_idx tts' = spec_clamped_size h).
Proof.
  intros H. specialize (H 2 _ eq_refl). vm_compute in H. discriminate.
Qed.

(** C3, amended: on a little-endian host a header byte [h] received in the
    idle state is decoded with the direction in bit 7 and the 6-bit size
    field in bits 5..0 ([h mod 64]); when that field is at most 4 it is the
    number of data bytes loaded into [data_idx], and so equals its own
    clamp to 4. *)
Theorem C3_header_decode_le
  {TPMState : Type} {core : TisCore TPMState}
  (tts : TPMStateSpi TPMState) (h : Z) :
  spi_state tts = STATE_IDLE ->
  exists tts',
    tpm_tis_spi_transfer8 le64 tts h = Ok (tts', 0, []) /\
    rwflag le64 (first_byte tts') = spec_direction h /\
    data_expected_size le64 (first_byte tts') = Z.land h 63 /\
    data_expected_size le64 (first_byte tts') = h mod 64 /\
    (h mod 64 <= 4 -> data_idx tts' = Z.min (Z.land h 63) 4).
Proof.
  intros Hs. exists (load_header le64 tts h). unfold spec_direction.
  split; [apply transfer8_idle; assumption|].
  unfold load_header, rwflag, data_expected_size.
  cbn [first_byte data_idx set_first_byte set_data_idx set_spi_state
       le64 big_endian].
  rewrite testbit_uint8 by lia. rewrite land63_uint8, land63_eq_mod.
  repeat split; auto. intros Hle. lia.
Qed.

(** The decoding at the header [0x82], received right after initialisation. *)
Lemma C3_header_decode_le_witness :
  spi_state (init (TPMState := unit) le64 tt) = STATE_IDLE /\
  exists tts',
    tpm_tis_spi_transfer8 (core := fixed_core 0) le64 (init le64 tt) 0x82
    = Ok (tts', 0, []) /\
    rwflag le64 (first_byte tts') = true /\
    data_expected_size le64 (first_byte tts') = 2 /\
    data_idx tts' = 2.
Proof.
  split; [reflexivity|].
  destruct (C3_header_decode_le (core := fixed_core 0) (init le64 tt) 0x82
              eq_refl)
    as (tts' & Hstep & Hdir & Hsize & _ & Hidx).
  exists tts'. split; [exact Hstep|]. split; [exact Hdir|].
  split; [exact Hsize|]. apply Hidx. vm_compute. discriminate.
Defined.

(** On a big-endian host the same declaration puts the size field in bits
    7..2 and the direction in bit 0. *)
Lemma header_decode_be (b : Z) :
  data_expected_size be64 b = Z.land (Z.shiftr b 2) 63 /\
  rwflag be64 b = Z.testbit b 0.
Proof. split; reflexivity. Qed.

(** ** The reply word *)

(** Every call returns unless its store falls outside the array, and the
    reply it returns is 0, except on the call that ends a read frame (data
    phase, [data_idx] at 0, direction bit set), whose reply is the value
    fetched from the register file, as the [uint32_t] the function
    returns. *)
Lemma transfer8_reply
  {TPMState : Type} {core : TisCore TPMState} (host : Host)
  (tts : TPMStateSpi TPMState) (tx : Z) :
  match tpm_tis_spi_transfer8 host tts tx with
  | Ok (_, r, _) =>
      if (spi_state tts =? STATE_DATA) && (data_idx tts =? 0)
         && rwflag host (first_byte tts)
      then r = uint32 (fst (tpm_tis_mmio_read (state tts)
                              (overlay_value host (addr tts))
                              (data_expected_size host (first_byte tts))))
      else r = 0
  | Undefined _ =>
      (spi_state tts = STATE_ADDRESS /\ addr_idx tts <> 0 /\
       store_byte (addr tts) (uint8 (addr_idx tts - 1)) (uint8 tx) = None) \/
      (spi_state tts = STATE_DATA /\ data_idx tts <> 0 /\
       store_byte (data tts) (uint8 (data_idx tts - 1)) (uint8 tx) = None)
  end.
Proof.
  destruct (tpm_tis_spi_transfer8 host tts tx) as [[[tts' r] ev]|f] eqn:Hstep.
  - apply transfer8_inv in Hstep.
    destruct Hstep as [Ha Hd|Ha Hi|bytes Ha Hi _|bytes Hd Hi _
                       |v s' Hd Hi Hrw Hrd|Hd Hi Hrw].
    + destruct (Z.eqb_spec (spi_state tts) STATE_DATA); [contradiction|].
      reflexivity.
    + rewrite Ha. reflexivity.
    + rewrite Ha. reflexivity.
    + rewrite Hd. destruct (Z.eqb_spec (data_idx tts) 0); [contradiction|].
      reflexivity.
    + rewrite Hd, Hi, Hrw, Hrd. reflexivity.
    + rewrite Hd, Hi, Hrw. reflexivity.
  - eapply transfer8_undefined. exact Hstep.
Qed.

(** The truncation to 32 bits keeps a value that fits. *)
Lemma uint32_small v : 0 <= v < 2 ^ 32 -> uint32 v = v.
Proof. intros Hv. unfold uint32. apply Z.mod_small. exact Hv. Qed.

(** In every reachable state of a host whose [hwaddr] has at least three
    bytes, a call returns unless the decoder is in the data phase with more
    than four bytes still to store. *)
Lemma transfer8_returns
  {TPMState : Type} {core : TisCore TPMState} (host : Host)
  (tts : TPMStateSpi TPMState) (tx : Z) :
  reachable host tts ->
  (3 <= sizeof_hwaddr host)%nat ->
  (spi_state tts = STATE_DATA -> data_idx tts <= 4) ->
  exists tts' r ev, tpm_tis_spi_transfer8 host tts tx = Ok (tts', r, ev).
Proof.
  intros Hreach Hsz Hdata.
  destruct (reachable_framed host tts Hreach) as (_ & Ha & Hd & Hla & Hld).
  destruct (tpm_tis_spi_transfer8 host tts tx) as [[[tts' r] ev]|f] eqn:Hstep.
  - eauto.
  - exfalso.
    destruct (transfer8_undefined host _ _ _ Hstep)
      as [(Hs & Hi & Hst)|(Hs & Hi & Hst)].
    + rewrite (uint8_small (addr_idx tts - 1)) in Hst by lia.
      unfold store_byte in Hst. destruct (decide _) as [|Hn]; [discriminate|].
      lia.
    + specialize (Hdata Hs).
      rewrite (uint8_small (data_idx tts - 1)) in Hst by lia.
      unfold store_byte in Hst. destruct (decide _) as [|Hn]; [discriminate|].
      unfold sizeof_data in Hld. lia.
Qed.

(** ** Reset *)

Section Reset.

Context {TPMState : Type} {core : TisCore TPMState}.
Variable host : Host.

Implicit Types tts : TPMStateSpi TPMState.

Lemma resets_decoder n : forall tts,
  same_decoder (fst (resets n tts)) tts /\ snd (resets n tts) = [].
Proof.
  induction n as [|n IH]; intros tts; simpl.
  - repeat split; reflexivity.
  - destruct (resets n (set_state (tpm_tis_reset (state tts)) tts))
      as [t2 evs] eqn:Hr.
    specialize (IH (set_state (tpm_tis_reset (state tts)) tts)).
    rewrite Hr in IH. simpl in *. exact IH.
Qed.

(** When the reset of the TIS core is itself idempotent, so is the reset
    of the whole device. *)
Lemma resets_whole_state n tts :
  (forall s : TPMState, tpm_tis_reset (tpm_tis_reset s) = tpm_tis_reset s) ->
  fst (resets (S n) tts) = fst (tpm_tis_spi_reset tts).
Proof.
  intros Hcore. revert tts. induction n as [|n IH]; intros tts.
  - reflexivity.
  - change (resets (S (S n)) tts)
      with (let '(t1, ev) := tpm_tis_spi_reset tts in
            let '(t2, evs) := resets (S n) t1 in (t2, ev ++ evs)).
    cbn [tpm_tis_spi_reset].
    specialize (IH (set_state (tpm_tis_reset (state tts)) tts)).
    destruct (resets (S n) _) as [t2 evs]. simpl in *. subst t2.
    unfold set_state; simpl. rewrite Hcore. reflexivity.
Qed.

End Reset.

(** C9: any number of consecutive resets leaves the decoder as one reset
    does (phase, header, buffers and counters are those of the state before,
    mid-frame or not), and no reset calls the register file's read or
    write. *)
Theorem C9_reset_idempotent
  {TPMState : Type} {core : TisCore TPMState}
  (tts : TPMStateSpi TPMState) (n : nat) :
  same_decoder (fst (resets (S n) tts)) (fst (tpm_tis_spi_reset tts)) /\
  snd (resets (S n) tts) = [] /\
  snd (tpm_tis_spi_reset tts) = [].
Proof.
  destruct (resets_decoder (S n) tts) as [Hdec Hev].
  split; [|split; [exact Hev|reflexivity]].
  exact Hdec.
Qed.

(** ** Phases *)

(** C7, as stated, fails: no value of the phase field is kept by every
    call without a register access. *)
Lemma C7_no_phase_is_absorbing :
  ~ (exists c : Z, confused_phase (core := fixed_core 0) le64 c).
Proof.
  intros [c Hc].
  destruct (Z.eq_dec c STATE_ADDRESS) as [->|Ha].
  - destruct (Hc {| state := tt; spi_state := STATE_ADDRESS; first_byte := 0;
                    addr := []; data := []; data_idx := 0; addr_idx := 0 |}
                 0 eq_refl) as (t & r & Hstep & Hph).
    vm_compute in Hstep. injection Hstep as <- _. discriminate Hph.
  - destruct (Hc {| state := tt; spi_state := c; first_byte := 0;
                    addr := []; data := []; data_idx := 0; addr_idx := 0 |}
                 0 eq_refl) as (t & r & Hstep & Hph).
    destruct (Z.eq_dec c STATE_DATA) as [->|Hd].
    + vm_compute in Hstep. discriminate Hstep.
    + rewrite (transfer8_header le64) in Hstep by assumption.
      injection Hstep as <- _. simpl in Hph. congruence.
Qed.

(** C7, amended: there is no Confused state.  Whatever the state before, a
    call that returns leaves the phase at Idle, Address or Data; and a byte
    received while the phase field holds any other value is decoded as a
    header, exactly as in Idle: reply 0, no register access, next phase
    Address. *)
Theorem C7_three_phases_only
  {TPMState : Type} {core : TisCore TPMState} (host : Host)
  (tts tts' : TPMStateSpi TPMState) (tx r : Z) (ev : list Access) :
  tpm_tis_spi_transfer8 host tts tx = Ok (tts', r, ev) ->
  (spi_state tts' = STATE_IDLE \/ spi_state tts' = STATE_ADDRESS \/
   spi_state tts' = STATE_DATA) /\
  (spi_state tts <> STATE_IDLE ->
   spi_state tts <> STATE_ADDRESS ->
   spi_state tts <> STATE_DATA ->
   tts' = load_header host tts tx /\ r = 0 /\ ev = [] /\
   spi_state tts' = STATE_ADDRESS /\
   tpm_tis_spi_transfer8 host (set_spi_state STATE_IDLE tts) tx
   = Ok (tts', r, ev)).
Proof.
  intros Hstep. split.
  - apply transfer8_inv in Hstep.
    destruct Hstep as [? ?|? ?|bytes Ha ? ?|bytes Hd ? ?|v s' ? ? ? ?|? ? ?];
      simpl; auto.
  - intros Hi Ha Hd.
    rewrite transfer8_default in Hstep by assumption.
    injection Hstep as <- <- <-.
    repeat split; auto.
Qed.

(** A byte received with 7 in the phase field. *)
Lemma C7_three_phases_only_witness :
  let tts := {| state := tt; spi_state := 7; first_byte := 0;
                addr := replicate 8 0; data := replicate 4 0;
                data_idx := 0; addr_idx := 2 |} in
  exists tts',
    tpm_tis_spi_transfer8 (core := fixed_core 0) le64 tts 0x41
    = Ok (tts', 0, []) /\
    (spi_state tts' = STATE_IDLE \/ spi_state tts' = STATE_ADDRESS \/
     spi_state tts' = STATE_DATA) /\
    tts' = load_header le64 tts 0x41 /\
    spi_state tts' = STATE_ADDRESS /\
    tpm_tis_spi_transfer8 (core := fixed_core 0) le64
      (set_spi_state STATE_IDLE tts) 0x41
    = Ok (tts', 0, []).
Proof.
  intros tts. eexists. split; [reflexivity|].
  destruct (C7_three_phases_only (core := fixed_core 0) le64 tts _ 0x41 0 []
              eq_refl) as [Hphase Hdefault].
  split; [exact Hphase|].
  destruct Hdefault as (Heq & _ & _ & Haddr & Hidle);
    [discriminate | discriminate | discriminate |].
  split; [exact Heq|]. split; [exact Haddr|exact Hidle].
Defined.

(** A header that declares no data is not refused: after the address and
    the two calls that move the decoder on, the write is made with
    width 0. *)
Example zero_size_frame_is_served :
  exists tts',
    transfer_bytes (core := fixed_core 0) le64 (init le64 tt)
      [0x00; 0x00; 0x10; 0x00; 0x00; 0x00]
    = Ok (tts', [0; 0; 0; 0; 0; 0], [MmioWrite 0x1000 0 0]) /\
    spi_state tts' = STATE_IDLE.
Proof. eexists. split; reflexivity. Qed.

(** ** One register access per frame *)

Section Access.

Context {TPMState : Type} {core : TisCore TPMState}.
Variable host : Host.

Implicit Types tts : TPMStateSpi TPMState.

(** A call either makes no register access and leaves the decoder out of
    Idle, or makes exactly one, from the data phase with [data_idx] at 0,
    and leaves it in Idle. *)
Lemma transfer8_access tts tx tts' r ev :
  tpm_tis_spi_transfer8 host tts tx = Ok (tts', r, ev) ->
  (ev = [] /\ spi_state tts' <> STATE_IDLE) \/
  (exists a, ev = [a] /\ spi_state tts = STATE_DATA /\ data_idx tts = 0 /\
             spi_state tts' = STATE_IDLE /\ data_idx tts' = 0).
Proof.
  intros Hstep. apply transfer8_inv in Hstep.
  destruct Hstep as [? ?|? ?|bytes Ha ? ?|bytes Hd ? ?|v s' ? ? ? ?|? ? ?];
    simpl.
  - left. split; [reflexivity|discriminate].
  - left. split; [reflexivity|discriminate].
  - left. split; [reflexivity|]. rewrite Ha. discriminate.
  - left. split; [reflexivity|]. rewrite Hd. discriminate.
  - right. eexists. repeat split; auto.
  - right. eexists. repeat split; auto.
Qed.

End Access.

(** C6, amended: in a frame (a run of calls from which the decoder does
    not return to Idle before the last one) the register file is called at
    most once, exactly once when the frame ends in Idle, and then by the
    last call alone, which is entered in the data phase with [data_idx]
    already at 0; the calls before it, the header, address and data-storing
    ones among them, make no access. *)
Theorem C6_single_access
  {TPMState : Type} {core : TisCore TPMState} (host : Host)
  (tts tts' : TPMStateSpi TPMState) (txs : list Z) (evs : list Access) :
  transaction host tts txs tts' evs ->
  (length evs <= 1)%nat /\
  (spi_state tts' = STATE_IDLE -> length evs = 1%nat) /\
  (evs <> [] ->
   exists pre tx mid rs r,
     txs = pre ++ [tx] /\
     transfer_bytes host tts pre = Ok (mid, rs, []) /\
     spi_state mid = STATE_DATA /\ data_idx mid = 0 /\
     tpm_tis_spi_transfer8 host mid tx = Ok (tts', r, evs) /\
     spi_state tts' = STATE_IDLE /\ data_idx tts' = 0).
Proof.
  induction 1 as [tts tx tts' r ev Hstep
                 |tts tx t1 r ev txs tts' evs Hstep Hmid Htr IH].
  - destruct (transfer8_access host _ _ _ _ _ Hstep)
      as [[-> Hout]|(a & -> & Hd & Hi & Hidle & Hi')].
    + repeat split; [simpl; lia | contradiction | congruence].
    + repeat split; [simpl; lia|].
      intros _. exists [], tx, tts, [], r. repeat split; auto.
  - destruct (transfer8_access host _ _ _ _ _ Hstep)
      as [[-> _]|(a & _ & _ & _ & Hidle & _)]; [|contradiction].
    destruct IH as (Hle & Hone & Hlast). simpl.
    repeat split; auto.
    intros Hne. destruct (Hlast Hne)
      as (pre & tx' & mid & rs & r' & -> & Hrun & Hd & Hi & Hfin & Hidle & Hi').
    exists (tx :: pre), tx', mid, (r :: rs), r'.
    repeat split; auto.
    cbn [transfer_bytes]. rewrite Hstep, Hrun. reflexivity.
Qed.

(** A one-byte write frame at [0x1000]: seven calls, one access. *)
Lemma C6_single_access_witness :
  exists tts' evs,
    transaction (core := fixed_core 0) le64 (init le64 tt)
      [0x01; 0x00; 0x10; 0x00; 0x00; 0xAB; 0x00] tts' evs /\
    evs = [MmioWrite 0x1000 0xAB 1] /\
    (length evs <= 1)%nat /\
    length evs = 1%nat /\
    exists pre tx mid rs r,
      [0x01; 0x00; 0x10; 0x00; 0x00; 0xAB; 0x00] = pre ++ [tx] /\
      transfer_bytes (core := fixed_core 0) le64 (init le64 tt) pre
      = Ok (mid, rs, []) /\
      spi_state mid = STATE_DATA /\ data_idx mid = 0 /\
      tpm_tis_spi_transfer8 (core := fixed_core 0) le64 mid tx
      = Ok (tts', r, evs) /\
      spi_state tts' = STATE_IDLE /\ data_idx tts' = 0.
Proof.
  eexists. eexists.
  eassert (Htr : transaction (core := fixed_core 0) le64 (init le64 tt)
                   [0x01; 0x00; 0x10; 0x00; 0x00; 0xAB; 0x00] _ _).
  { do 6 (eapply transaction_more;
            [vm_compute; reflexivity | vm_compute; discriminate |]).
    eapply transaction_last. vm_compute. reflexivity. }
  split; [exact Htr|]. split; [reflexivity|].
  destruct (C6_single_access le64 _ _ _ _ Htr) as (Hle & Hone & Hlast).
  split; [exact Hle|]. split; [apply Hone; reflexivity|].
  apply Hlast. discriminate.
Defined.

(** ** The first frame after initialisation *)

Section FirstFrame.

Context {TPMState : Type} {core : TisCore TPMState}.
Variable host : Host.

Implicit Types tts : TPMStateSpi TPMState.

Lemma transfer_bytes_reachable txs : forall tts tts' rs evs,
  reachable host tts ->
  transfer_bytes host tts txs = Ok (tts', rs, evs) ->
  reachable host tts'.
Proof.
  induction txs as [|tx txs IH]; intros tts tts' rs evs Hreach; simpl.
  - intros [= <- _ _]. exact Hreach.
  - destruct (tpm_tis_spi_transfer8 host tts tx) as [[[t1 r] ev]|f] eqn:Hstep;
      [|discriminate].
    destruct (transfer_bytes host t1 txs) as [[[t2 rs2] ev2]|f] eqn:Hrun;
      [|discriminate].
    intros [= <- _ _]. eapply IH; [|exact Hrun].
    eapply reach_transfer; eassumption.
Qed.

(** After the header and three address bytes the decoder is still in the
    address phase, with [addr_idx] at 0 and the bytes stored from index 2
    down to index 0. *)
Lemma first_frame_address (s0 : TPMState) h a2 a1 a0 :
  (3 <= sizeof_hwaddr host)%nat ->
  transfer_bytes host (init host s0) [h; a2; a1; a0]
  = Ok ({| state := s0; spi_state := STATE_ADDRESS; first_byte := uint8 h;
           addr := [uint8 a0; uint8 a1; uint8 a2]
                   ++ replicate (sizeof_hwaddr host - 3) 0;
           data := replicate sizeof_data 0;
           data_idx := data_expected_size host (uint8 h);
           addr_idx := 0 |},
        [0; 0; 0; 0], []).
Proof.
  intros Hsz. change [h; a2; a1; a0] with ([h] ++ [a2; a1; a0]).
  erewrite transfer_bytes_app; cycle 1.
  { cbn [transfer_bytes]. rewrite transfer8_idle by reflexivity. reflexivity. }
  rewrite address_phase; simpl; rewrite ?length_replicate; auto; try lia.
  rewrite drop_replicate. reflexivity.
Qed.

(** The same frame carried on by the call that leaves the address phase
    and by the data bytes the header declares. *)
Lemma first_frame_prefix (s0 : TPMState) h a2 a1 a0 x ds :
  (3 <= sizeof_hwaddr host)%nat ->
  data_expected_size host (uint8 h) = Z.of_nat (length ds) ->
  (length ds <= sizeof_data)%nat ->
  transfer_bytes host (init host s0) ([h; a2; a1; a0; x] ++ ds)
  = Ok ({| state := s0; spi_state := STATE_DATA; first_byte := uint8 h;
           addr := [uint8 a0; uint8 a1; uint8 a2]
                   ++ replicate (sizeof_hwaddr host - 3) 0;
           data := rev (uint8 <$> ds)
                   ++ replicate (sizeof_data - length ds) 0;
           data_idx := 0; addr_idx := 0 |},
        replicate (1 + 3 + 1 + length ds) 0, []).
Proof.
  intros Hsz Hsize Hlen.
  change ([h; a2; a1; a0; x] ++ ds) with (h :: [a2; a1; a0] ++ x :: ds).
  rewrite frame_prefix; simpl; rewrite ?length_replicate; auto; try lia.
  change [0; 0; 0; 0] with (replicate sizeof_data 0).
  rewrite !drop_replicate. reflexivity.
Qed.

End FirstFrame.

Lemma overlay_le_address b0 b1 b2 n :
  overlay_value le64 ([b0; b1; b2] ++ replicate n 0)
  = Z.lor (Z.shiftl b2 16) (Z.lor (Z.shiftl b1 8) b0).
Proof. apply le_value_three. Qed.

Lemma overlay_le_data l n :
  overlay_value le64 (l ++ replicate n 0) = le_value l.
Proof. apply le_value_zeros. Qed.

(** ** Write frames *)

(** C1, as stated, fails: a write frame is not completed by 1 + 3 + N
    calls.  The header [0x01] declares a write of one byte; after it, the
    three address bytes and the data byte [0xAB], five calls in all, no
    write has been issued: the fifth byte was spent on leaving the address
    phase. *)
Lemma C1_write_not_issued_after_1_3_N_calls :
  ~ (forall h a2 a1 a0 ds,
       rwflag le64 (uint8 h) = false ->
       data_expected_size le64 (uint8 h) = Z.of_nat (length ds) ->
       exists tts rs a v n,
         transfer_bytes (core := fixed_core 0) le64 (init le64 tt)
           ([h; a2; a1; a0] ++ ds)
         = Ok (tts, rs, [MmioWrite a v n])).
Proof.
  intros H.
  destruct (H 0x01 0x00 0x10 0x00 [0xAB] eq_refl eq_refl)
    as (tts & rs & a & v & n & Hrun).
  vm_compute in Hrun. discriminate Hrun.
Qed.

(** The same five calls: the decoder is in the data phase with the one
    data byte still to come, and [0xAB] is not in the data array. *)
Example one_byte_write_after_five_calls :
  exists tts,
    transfer_bytes (core := fixed_core 0) le64 (init le64 tt)
      [0x01; 0x00; 0x10; 0x00; 0xAB]
    = Ok (tts, [0; 0; 0; 0; 0], []) /\
    spi_state tts = STATE_DATA /\ data_idx tts = 1 /\
    data tts = [0; 0; 0; 0].
Proof. eexists. repeat split; reflexivity. Qed.

(** What the five bytes do: [0x84] has bit 7 set and 4 in its size field,
    and the fifth byte only takes the decoder into the data phase. *)
Example five_bytes_end_in_data_phase :
  exists tts,
    transfer_bytes (core := fixed_core 0) le64 (init le64 tt)
      [0x84; 0x00; 0x10; 0x00; 0xAB]
    = Ok (tts, [0; 0; 0; 0; 0], []) /\
    spi_state tts = STATE_DATA /\ data_idx tts = 4 /\
    rwflag le64 (first_byte tts) = true /\
    data tts = [0; 0; 0; 0].
Proof. eexists. repeat split; reflexivity. Qed.

(** C1, amended: the decoder leaves the address phase, and makes the
    register access, on the call after the one that brings the counter to
    0, and that call's byte is not stored.  In the first frame after
    initialisation on a little-endian host, a write frame whose header
    declares N <= 4 bytes is completed, and the register write issued, by
    exactly 1 (header) + 3 (address) + 1 + N (data) + 1 calls: after the
    third address byte the decoder is still in the address phase, after the
    N-th data byte it is still in the data phase and no write has been
    made. *)
Theorem C1_write_frame_takes_two_more_calls
  {TPMState : Type} {core : TisCore TPMState}
  (s0 : TPMState) (h a2 a1 a0 x y : Z) (ds : list Z) :
  rwflag le64 (uint8 h) = false ->
  data_expected_size le64 (uint8 h) = Z.of_nat (length ds) ->
  (length ds <= 4)%nat ->
  exists t4 mid fin,
    transfer_bytes le64 (init le64 s0) [h; a2; a1; a0]
    = Ok (t4, [0; 0; 0; 0], []) /\
    spi_state t4 = STATE_ADDRESS /\ addr_idx t4 = 0 /\
    tpm_tis_spi_transfer8 le64 t4 x = Ok (set_spi_state STATE_DATA t4, 0, []) /\
    transfer_bytes le64 (init le64 s0) ([h; a2; a1; a0; x] ++ ds)
    = Ok (mid, replicate (1 + 3 + 1 + length ds) 0, []) /\
    spi_state mid = STATE_DATA /\ data_idx mid = 0 /\
    transfer_bytes le64 (init le64 s0) (([h; a2; a1; a0; x] ++ ds) ++ [y])
    = Ok (fin, replicate (1 + 3 + 1 + length ds) 0 ++ [0],
          [MmioWrite
             (Z.lor (Z.shiftl (uint8 a2) 16)
                (Z.lor (Z.shiftl (uint8 a1) 8) (uint8 a0)))
             (le_value (rev (uint8 <$> ds)))
             (Z.of_nat (length ds))]) /\
    spi_state fin = STATE_IDLE /\
    length (([h; a2; a1; a0; x] ++ ds) ++ [y])
    = (1 + 3 + 1 + length ds + 1)%nat.
Proof.
  intros Hrw Hsize Hlen.
  pose proof (first_frame_address le64 s0 h a2 a1 a0 ltac:(simpl; lia)) as H4.
  pose proof (first_frame_prefix le64 s0 h a2 a1 a0 x ds
                ltac:(simpl; lia) Hsize Hlen) as Hmid.
  match type of Hmid with _ = Ok (?m, _, _) =>
    pose proof (transfer8_write le64 m y eq_refl eq_refl Hrw) as Hstep
  end.
  cbn [addr data first_byte state] in Hstep.
  rewrite overlay_le_address, overlay_le_data, Hsize in Hstep.
  pose proof (transfer_bytes_snoc le64 _ _ _ _ _ _ _ _ _ Hmid Hstep) as Hfin.
  eexists. eexists. eexists.
  split; [exact H4|]. split; [reflexivity|]. split; [reflexivity|].
  split; [apply transfer8_address_done; reflexivity|].
  split; [exact Hmid|]. split; [reflexivity|]. split; [reflexivity|].
  split; [exact Hfin|]. split; [reflexivity|].
  rewrite !length_app. simpl. lia.
Qed.

(** A four-byte write frame at [0x1000]: ten calls. *)
Lemma C1_write_frame_takes_two_more_calls_witness :
  rwflag le64 (uint8 0x04) = false /\
  data_expected_size le64 (uint8 0x04)
  = Z.of_nat (length [0xAB; 0xCD; 0xEF; 0x01]) /\
  (length [0xAB; 0xCD; 0xEF; 0x01] <= 4)%nat /\
  exists fin,
    transfer_bytes (core := fixed_core 0) le64 (init le64 tt)
      [0x04; 0x00; 0x10; 0x00; 0xFF; 0xAB; 0xCD; 0xEF; 0x01; 0xFF]
    = Ok (fin, [0; 0; 0; 0; 0; 0; 0; 0; 0; 0],
          [MmioWrite 0x1000 0xABCDEF01 4]) /\
    spi_state fin = STATE_IDLE.
Proof.
  split; [reflexivity|]. split; [reflexivity|]. split; [simpl; lia|].
  destruct (C1_write_frame_takes_two_more_calls (core := fixed_core 0)
              tt 0x04 0x00 0x10 0x00 0xFF 0xFF [0xAB; 0xCD; 0xEF; 0x01]
              eq_refl eq_refl ltac:(simpl; lia))
    as (t4 & mid & fin & _ & _ & _ & _ & _ & _ & _ & Hrun & Hidle & _).
  exists fin. split; [exact Hrun|exact Hidle].
Defined.

(** ** Read frames *)

(** C4, as stated, fails: with a register file that returns [0x5A], the
    fifth call of the example replies 0. *)
Lemma C4_fifth_reply_is_not_the_value :
  ~ (exists tts rs ev,
       transfer_bytes (core := fixed_core 0x5A) le64 (init le64 tt)
         [0x82; 0x00; 0x20; 0x00; 0x00]
       = Ok (tts, rs, ev) /\
       rs !! 4%nat = Some 0x5A).
Proof.
  intros (tts & rs & ev & H & H5). vm_compute in H.
  injection H as _ <- _. discriminate H5.
Qed.

(** C4, amended: in a read frame (first frame after initialisation,
    little-endian host, N <= 4 declared bytes) the register value is
    fetched exactly once, by the call that follows the N data-phase calls;
    that call replies the fetched value as one word.  Every call before
    it replies 0 and makes no register access, and the bytes received in
    the data phase are stored in the data buffer. *)
Theorem C4_read_is_fetched_by_the_last_call
  {TPMState : Type} {core : TisCore TPMState}
  (s0 : TPMState) (h a2 a1 a0 x y : Z) (ds : list Z) :
  rwflag le64 (uint8 h) = true ->
  data_expected_size le64 (uint8 h) = Z.of_nat (length ds) ->
  (length ds <= 4)%nat ->
  let a := Z.lor (Z.shiftl (uint8 a2) 16)
             (Z.lor (Z.shiftl (uint8 a1) 8) (uint8 a0)) in
  let n := Z.of_nat (length ds) in
  exists mid fin,
    transfer_bytes le64 (init le64 s0) ([h; a2; a1; a0; x] ++ ds)
    = Ok (mid, replicate (1 + 3 + 1 + length ds) 0, []) /\
    data mid = rev (uint8 <$> ds) ++ replicate (4 - length ds) 0 /\
    tpm_tis_spi_transfer8 le64 mid y
    = Ok (fin, uint32 (fst (tpm_tis_mmio_read s0 a n)), [MmioRead a n]) /\
    transfer_bytes le64 (init le64 s0) (([h; a2; a1; a0; x] ++ ds) ++ [y])
    = Ok (fin,
          replicate (1 + 3 + 1 + length ds) 0
          ++ [uint32 (fst (tpm_tis_mmio_read s0 a n))],
          [MmioRead a n]) /\
    spi_state fin = STATE_IDLE.
Proof.
  intros Hrw Hsize Hlen a n.
  pose proof (first_frame_prefix le64 s0 h a2 a1 a0 x ds
                ltac:(simpl; lia) Hsize Hlen) as Hmid.
  match type of Hmid with _ = Ok (?m, _, _) =>
    pose proof (transfer8_read le64 m y eq_refl eq_refl Hrw) as Hstep
  end.
  cbn [addr data first_byte state] in Hstep.
  rewrite overlay_le_address, Hsize in Hstep. fold a n in Hstep.
  pose proof (transfer_bytes_snoc le64 _ _ _ _ _ _ _ _ _ Hmid Hstep) as Hfin.
  eexists. eexists.
  split; [exact Hmid|]. split; [reflexivity|].
  split; [exact Hstep|]. split; [exact Hfin|]. reflexivity.
Qed.

(** The read frame [0x82, 0x00, 0x20, 0x00] with a register file that returns [0x5A]: the value comes back on the eighth call. *)
Lemma C4_read_is_fetched_by_the_last_call_witness :
  rwflag le64 (uint8 0x82) = true /\
  data_expected_size le64 (uint8 0x82) = Z.of_nat (length [0x00; 0x00]) /\
  (length [0x00; 0x00] <= 4)%nat /\
  exists fin,
    transfer_bytes (core := fixed_core 0x5A) le64 (init le64 tt)
      [0x82; 0x00; 0x20; 0x00; 0x00; 0x00; 0x00; 0x00]
    = Ok (fin, [0; 0; 0; 0; 0; 0; 0; 0x5A], [MmioRead 0x2000 2]) /\
    spi_state fin = STATE_IDLE.
Proof.
  split; [reflexivity|]. split; [reflexivity|]. split; [simpl; lia|].
  destruct (C4_read_is_fetched_by_the_last_call (core := fixed_core 0x5A)
              tt 0x82 0x00 0x20 0x00 0x00 0x00 [0x00; 0x00]
              eq_refl eq_refl ltac:(simpl; lia))
    as (mid & fin & _ & _ & _ & Hrun & Hidle).
  exists fin. split; [exact Hrun|exact Hidle].
Defined.

(** ** The header call, and the address bytes that follow it *)

(** C2, as stated, fails twice over.  A header received in Idle after a
    completed frame leaves [addr_idx] at 0; and after a reset in the middle
    of a frame the next byte is not taken as a header. *)
Lemma C2_header_not_fresh :
  ~ (forall tts h tts' r ev,
       reachable (core := fixed_core 0) le64 tts ->
       spi_state tts = STATE_IDLE ->
       tpm_tis_spi_transfer8 (core := fixed_core 0) le64 tts h
       = Ok (tts', r, ev) ->
       addr_idx tts' = 3) /\
  ~ (forall tts h tts' r ev,
       reachable (core := fixed_core 0) le64 tts ->
       tpm_tis_spi_transfer8 (core := fixed_core 0) le64
         (fst (tpm_tis_spi_reset (core := fixed_core 0) tts)) h
       = Ok (tts', r, ev) ->
       first_byte tts' = uint8 h).
Proof.
  split; intros H.
  - assert (Hreach : reachable (core := fixed_core 0) le64
              {| state := tt; spi_state := STATE_IDLE; first_byte := 0x01;
                 addr := [0; 0x10; 0; 0; 0; 0; 0; 0]; data := [0xAB; 0; 0; 0];
                 data_idx := 0; addr_idx := 0 |}).
    { apply (transfer_bytes_reachable le64
               [0x01; 0x00; 0x10; 0x00; 0x00; 0xAB; 0x00]
               (init le64 tt) _ (replicate 7 0) [MmioWrite 0x1000 0xAB 1]).
      - apply reach_init.
      - vm_compute. reflexivity. }
    specialize (H _ 0x01 _ _ _ Hreach eq_refl eq_refl).
    vm_compute in H. discriminate H.
  - assert (Hreach : reachable (core := fixed_core 0) le64
              {| state := tt; spi_state := STATE_ADDRESS; first_byte := 0x01;
                 addr := [0; 0; 0xAA; 0; 0; 0; 0; 0]; data := [0; 0; 0; 0];
                 data_idx := 1; addr_idx := 2 |}).
    { apply (transfer_bytes_reachable le64 [0x01; 0xAA]
               (init le64 tt) _ [0; 0] []).
      - apply reach_init.
      - vm_compute. reflexivity. }
    specialize (H _ 0x02 _ _ _ Hreach eq_refl).
    vm_compute in H. discriminate H.
Qed.

(** C2, amended: a header byte received in Idle is recorded as the header,
    is answered with 0 and takes the decoder to the address phase; when the
    size field it declares is at most 4, that field (its own clamp to 4) is
    loaded into [data_idx].  In the first frame after initialisation, where
    [tpm_tis_spi_initfn] has set [addr_idx] to 3, the three bytes that
    follow are stored in the address array at the indices 2, 1 and 0, in
    that order; a little-endian host reads the array as the address with
    the first byte most significant. *)
Theorem C2_header_call_and_first_address
  {TPMState : Type} {core : TisCore TPMState} (host : Host)
  (tts : TPMStateSpi TPMState) (s0 : TPMState) (h a2 a1 a0 : Z) :
  spi_state tts = STATE_IDLE ->
  (3 <= sizeof_hwaddr host)%nat ->
  (exists tts',
     tpm_tis_spi_transfer8 host tts h = Ok (tts', 0, []) /\
     spi_state tts' = STATE_ADDRESS /\
     first_byte tts' = uint8 h /\
     (data_expected_size host (uint8 h) <= 4 ->
      data_idx tts' = Z.min (data_expected_size host (uint8 h)) 4)) /\
  (exists t4,
     transfer_bytes host (init host s0) [h; a2; a1; a0]
     = Ok (t4, [0; 0; 0; 0], []) /\
     spi_state t4 = STATE_ADDRESS /\ addr_idx t4 = 0 /\
     addr t4 = [uint8 a0; uint8 a1; uint8 a2]
               ++ replicate (sizeof_hwaddr host - 3) 0 /\
     (big_endian host = false ->
      overlay_value host (addr t4)
      = Z.lor (Z.shiftl (uint8 a2) 16)
          (Z.lor (Z.shiftl (uint8 a1) 8) (uint8 a0)))).
Proof.
  intros Hidle Hsz. split.
  - exists (load_header host tts h).
    split; [apply transfer8_idle; exact Hidle|].
    unfold load_header; cbn [spi_state first_byte data_idx set_spi_state
                             set_data_idx set_first_byte].
    repeat split. intros Hle. lia.
  - eexists. split; [apply first_frame_address; exact Hsz|].
    cbn [spi_state addr_idx addr]. repeat split.
    intros Hle. unfold overlay_value. rewrite Hle. apply le_value_three.
Qed.

(** The header [0x04] and the address [0x00, 0x10, 0x00] right after initialisation. *)
Lemma C2_header_call_and_first_address_witness :
  spi_state (init (TPMState := unit) le64 tt) = STATE_IDLE /\
  (3 <= sizeof_hwaddr le64)%nat /\
  (exists tts',
     tpm_tis_spi_transfer8 (core := fixed_core 0) le64 (init le64 tt) 0x04
     = Ok (tts', 0, []) /\
     spi_state tts' = STATE_ADDRESS /\ first_byte tts' = 0x04 /\
     data_idx tts' = 4) /\
  (exists t4,
     transfer_bytes (core := fixed_core 0) le64 (init le64 tt)
       [0x04; 0x00; 0x10; 0x00]
     = Ok (t4, [0; 0; 0; 0], []) /\
     addr t4 = [0x00; 0x10; 0x00; 0; 0; 0; 0; 0] /\
     overlay_value le64 (addr t4) = 0x1000).
Proof.
  split; [reflexivity|]. split; [simpl; lia|].
  destruct (C2_header_call_and_first_address (core := fixed_core 0) le64
              (init le64 tt) tt 0x04 0x00 0x10 0x00 eq_refl
              ltac:(simpl; lia))
    as [(tts' & Hstep & Hphase & Hfirst & Hidx)
        (t4 & Hrun & _ & _ & Haddr & Hval)].
  split.
  - exists tts'. split; [exact Hstep|]. split; [exact Hphase|].
    split; [exact Hfirst|]. apply Hidx. vm_compute. discriminate.
  - exists t4. split; [exact Hrun|]. split; [exact Haddr|].
    apply Hval. reflexivity.
Defined.

(** ** Address assembly *)

(** In the first frame after initialisation, on a little-endian host, the
    address handed to the register file is the three address bytes, first
    byte most significant. *)
Lemma first_frame_address_le
  {TPMState : Type} {core : TisCore TPMState}
  (s0 : TPMState) (h a2 a1 a0 : Z) :
  exists t4,
    transfer_bytes le64 (init le64 s0) [h; a2; a1; a0]
    = Ok (t4, [0; 0; 0; 0], []) /\
    overlay_value le64 (addr t4)
    = Z.lor (Z.shiftl (uint8 a2) 16)
        (Z.lor (Z.shiftl (uint8 a1) 8) (uint8 a0)).
Proof.
  eexists. split; [apply first_frame_address; simpl; lia|].
  apply le_value_three.
Qed.

(** On a big-endian host the same three stores put the first address byte in
    bits 47..40 of the 64-bit address. *)
Example first_frame_address_be :
  exists tts,
    transfer_bytes (core := fixed_core 0) be64 (init be64 tt)
      [0x00; 0x00; 0x10; 0x00; 0x00; 0x00]
    = Ok (tts, [0; 0; 0; 0; 0; 0], [MmioWrite (Z.shiftl 0x10 48) 0 0]).
Proof. eexists. reflexivity. Qed.

(** [addr_idx] is written by the initialiser and by the address stores
    only, and the stores count it down: along any run it never grows, so
    once a frame has brought it to 0 it stays there. *)
Lemma addr_idx_non_increasing
  {TPMState : Type} {core : TisCore TPMState} (host : Host)
  (tts tts' : TPMStateSpi TPMState) (tx r : Z) (ev : list Access) :
  framed host tts ->
  tpm_tis_spi_transfer8 host tts tx = Ok (tts', r, ev) ->
  addr_idx tts' <= addr_idx tts.
Proof.
  intros (_ & Ha & _) Hstep. apply transfer8_inv in Hstep.
  destruct Hstep as [? ?|? ?|bytes ? ? ?|bytes ? ? ?|v s' ? ? ? ?|? ? ?];
    simpl; try lia.
  rewrite uint8_small by lia. lia.
Qed.

(** A write frame received with [addr_idx] at 0: the byte after the header
    is spent on leaving the address phase, and the write goes to whatever
    address the buffer already holds. *)
Lemma later_frame_keeps_address
  {TPMState : Type} {core : TisCore TPMState} (host : Host)
  (tts : TPMStateSpi TPMState) (h x y : Z) (ds : list Z) :
  spi_state tts = STATE_IDLE ->
  addr_idx tts = 0 ->
  rwflag host (uint8 h) = false ->
  data_expected_size host (uint8 h) = Z.of_nat (length ds) ->
  (length ds <= length (data tts))%nat ->
  exists fin v,
    transfer_bytes host tts ((h :: x :: ds) ++ [y])
    = Ok (fin, replicate (2 + length ds) 0 ++ [0],
          [MmioWrite (overlay_value host (addr tts)) v
             (Z.of_nat (length ds))]).
Proof.
  intros Hidle Hidx Hrw Hsize Hlen.
  pose proof (frame_prefix host tts h [] x ds Hidle Hidx
                ltac:(simpl; lia) ltac:(simpl; lia) Hsize Hlen) as Hmid.
  cbn [app length rev fmap list_fmap drop Nat.add] in Hmid.
  match type of Hmid with _ = Ok (?m, _, _) =>
    pose proof (transfer8_write host m y eq_refl eq_refl Hrw) as Hstep
  end.
  cbn [addr data first_byte state] in Hstep. rewrite Hsize in Hstep.
  pose proof (transfer_bytes_snoc host _ _ _ _ _ _ _ _ _ Hmid Hstep) as Hfin.
  eexists. eexists. exact Hfin.
Qed.

(** C8 at two frames in a row: the second frame's address bytes
    [0x00, 0x20, 0x00] are not stored, because [addr_idx] is still 0; the
    first of them is spent on leaving the address phase, the second is
    stored as the data byte, and the third triggers a write to the address
    of the first frame. *)
Theorem C8_second_frame_keeps_first_address :
  exists tts,
    transfer_bytes (core := fixed_core 0) le64 (init le64 tt)
      [0x01; 0x00; 0x10; 0x00; 0x00; 0xAB; 0x00;
       0x01; 0x00; 0x20; 0x00]
    = Ok (tts, replicate 11 0,
          [MmioWrite 0x1000 0xAB 1; MmioWrite 0x1000 0x20 1]) /\
    spi_state tts = STATE_IDLE /\
    overlay_value le64 (addr tts) = 0x1000 /\
    Z.lor (Z.shiftl 0x00 16) (Z.lor (Z.shiftl 0x20 8) 0x00) = 0x2000.
Proof. eexists. repeat split; reflexivity. Qed.

(** ** Bounds of the counters and of the stores *)

(** A header that declares more than four bytes makes the first data byte
    of the first frame land past the end of the data array. *)
Lemma oversized_frame_is_undefined
  {TPMState : Type} {core : TisCore TPMState} (host : Host)
  (s0 : TPMState) (h a2 a1 a0 x d : Z) :
  (3 <= sizeof_hwaddr host)%nat ->
  4 < data_expected_size host (uint8 h) ->
  transfer_bytes host (init host s0) [h; a2; a1; a0; x; d]
  = Undefined (DataOutOfBounds (data_expected_size host (uint8 h) - 1)).
Proof.
  intros Hsz Hbig.
  pose proof (data_expected_size_range host (uint8 h)) as Hrange.
  change [h; a2; a1; a0; x; d] with ([h; a2; a1; a0] ++ [x; d]).
  rewrite (transfer_bytes_app host _ _ _ _ _ _
             (first_frame_address host s0 h a2 a1 a0 Hsz)).
  cbn [transfer_bytes].
  rewrite transfer8_address_done by reflexivity.
  rewrite transfer8_data_overflow; [reflexivity|reflexivity|].
  cbn [data data_idx set_spi_state]. rewrite length_replicate.
  unfold sizeof_data. lia.
Qed.

(** C5 at the header [0x05] and at the header [0x3F]: [data_idx] is loaded
    with 5, resp. 63, and the first data byte of the frame is stored at
    index 4, resp. 62, of the four-byte data array. *)
Theorem C5_data_store_past_the_buffer :
  (exists tts,
     transfer_bytes (core := fixed_core 0) le64 (init le64 tt)
       [0x05; 0x00; 0x00; 0x00; 0x00]
     = Ok (tts, [0; 0; 0; 0; 0], []) /\
     reachable (core := fixed_core 0) le64 tts /\
     spi_state tts = STATE_DATA /\ data_idx tts = 5 /\
     length (data tts) = 4%nat) /\
  transfer_bytes (core := fixed_core 0) le64 (init le64 tt)
    [0x05; 0x00; 0x00; 0x00; 0x00; 0xAA]
  = Undefined (DataOutOfBounds 4) /\
  (exists tts,
     transfer_bytes (core := fixed_core 0) le64 (init le64 tt) [0x3F]
     = Ok (tts, [0], []) /\
     reachable (core := fixed_core 0) le64 tts /\ data_idx tts = 63) /\
  transfer_bytes (core := fixed_core 0) le64 (init le64 tt)
    [0x3F; 0x00; 0x00; 0x00; 0x00; 0xAA]
  = Undefined (DataOutOfBounds 62).
Proof.
  split; [|split; [reflexivity|split; [|reflexivity]]].
  - eexists. split; [reflexivity|]. split; [|repeat split; reflexivity].
    eapply (transfer_bytes_reachable le64 [0x05; 0x00; 0x00; 0x00; 0x00]).
    + apply reach_init.
    + vm_compute. reflexivity.
  - eexists. split; [reflexivity|]. split; [|reflexivity].
    eapply (transfer_bytes_reachable le64 [0x3F]).
    + apply reach_init.
    + vm_compute. reflexivity.
Qed.

(** ** The claims on the timing of the access and on the reply, again *)

(** C6, as stated, fails: the call on which the counter reaches 0 makes no
    access.  After the header [0x01], the address and the call that leaves
    the address phase, the decoder is in the data phase with [data_idx] at
    1; the data byte [0xAB] brings it to 0 and the register file is not
    called. *)
Lemma C6_no_access_when_counter_reaches_zero :
  ~ (forall tts tx tts' r ev,
       reachable (core := fixed_core 0) le64 tts ->
       tpm_tis_spi_transfer8 (core := fixed_core 0) le64 tts tx
       = Ok (tts', r, ev) ->
       spi_state tts = STATE_DATA ->
       data_idx tts <> 0 -> data_idx tts' = 0 ->
       ev <> []).
Proof.
  intros H.
  assert (Hreach : reachable (core := fixed_core 0) le64
            {| state := tt; spi_state := STATE_DATA; first_byte := 0x01;
               addr := [0; 0x10; 0; 0; 0; 0; 0; 0]; data := [0; 0; 0; 0];
               data_idx := 1; addr_idx := 0 |}).
  { apply (transfer_bytes_reachable le64 [0x01; 0x00; 0x10; 0x00; 0x00]
             (init le64 tt) _ (replicate 5 0) []).
    - apply reach_init.
    - vm_compute. reflexivity. }
  assert (Hstep : tpm_tis_spi_transfer8 (core := fixed_core 0) le64
                    {| state := tt; spi_state := STATE_DATA;
                       first_byte := 0x01;
                       addr := [0; 0x10; 0; 0; 0; 0; 0; 0];
                       data := [0; 0; 0; 0];
                       data_idx := 1; addr_idx := 0 |} 0xAB
                  = Ok ({| state := tt; spi_state := STATE_DATA;
                           first_byte := 0x01;
                           addr := [0; 0x10; 0; 0; 0; 0; 0; 0];
                           data := [0xAB; 0; 0; 0];
                           data_idx := 0; addr_idx := 0 |}, 0, []))
    by (vm_compute; reflexivity).
  exact (H _ _ _ _ _ Hreach Hstep eq_refl ltac:(discriminate) eq_refl eq_refl).
Qed.

(** C10, as stated, fails: not every call made in a reachable state
    returns a reply.  After the header [0x05], the address and the call
    that leaves the address phase, the store of any byte is past the end of
    the data array. *)
Lemma C10_reachable_call_without_reply :
  ~ (forall tts tx,
       reachable (core := fixed_core 0) le64 tts ->
       exists tts' r ev,
         tpm_tis_spi_transfer8 (core := fixed_core 0) le64 tts tx
         = Ok (tts', r, ev)).
Proof.
  intros H.
  assert (Hreach : reachable (core := fixed_core 0) le64
            {| state := tt; spi_state := STATE_DATA; first_byte := 0x05;
               addr := [0; 0; 0; 0; 0; 0; 0; 0]; data := [0; 0; 0; 0];
               data_idx := 5; addr_idx := 0 |}).
  { apply (transfer_bytes_reachable le64 [0x05; 0x00; 0x00; 0x00; 0x00]
             (init le64 tt) _ (replicate 5 0) []).
    - apply reach_init.
    - vm_compute. reflexivity. }
  destruct (H _ 0xAA Hreach) as (tts' & r & ev & Hstep).
  vm_compute in Hstep. discriminate Hstep.
Qed.

(** C10, amended: on a host whose [hwaddr] has at least three bytes, in
    every reachable state that is not in the data phase with more than four
    bytes still to store, a call returns for every input byte, and its
    reply is 0 except on the call that ends a read frame (data phase,
    [data_idx] at 0, direction bit set), whose reply is the value fetched
    from the register file, as the [uint32_t] the function returns; header
    bytes, address bytes and data bytes are answered with 0. *)
Theorem C10_reply_when_store_in_bounds
  {TPMState : Type} {core : TisCore TPMState} (host : Host)
  (tts : TPMStateSpi TPMState) (tx : Z) :
  reachable host tts ->
  (3 <= sizeof_hwaddr host)%nat ->
  (spi_state tts = STATE_DATA -> data_idx tts <= 4) ->
  exists tts' r ev,
    tpm_tis_spi_transfer8 host tts tx = Ok (tts', r, ev) /\
    if (spi_state tts =? STATE_DATA) && (data_idx tts =? 0)
       && rwflag host (first_byte tts)
    then r = uint32 (fst (tpm_tis_mmio_read (state tts)
                            (overlay_value host (addr tts))
                            (data_expected_size host (first_byte tts))))
    else r = 0.
Proof.
  intros Hreach Hsz Hfit.
  destruct (transfer8_returns host tts tx Hreach Hsz Hfit)
    as (tts' & r & ev & Hstep).
  exists tts', r, ev. split; [exact Hstep|].
  pose proof (transfer8_reply host tts tx) as Hreply.
  rewrite Hstep in Hreply. exact Hreply.
Qed.

(** The last call of a read of two bytes at [0x2000], from a register file
    that returns [0x5A], and the data byte before it. *)
Lemma C10_reply_when_store_in_bounds_witness :
  let before := {| state := tt; spi_state := STATE_DATA; first_byte := 0x82;
                   addr := [0; 0x20; 0; 0; 0; 0; 0; 0];
                   data := [0; 0x11; 0; 0];
                   data_idx := 1; addr_idx := 0 |} in
  let last := {| state := tt; spi_state := STATE_DATA; first_byte := 0x82;
                 addr := [0; 0x20; 0; 0; 0; 0; 0; 0];
                 data := [0x22; 0x11; 0; 0];
                 data_idx := 0; addr_idx := 0 |} in
  reachable (core := fixed_core 0x5A) le64 before /\
  reachable (core := fixed_core 0x5A) le64 last /\
  (3 <= sizeof_hwaddr le64)%nat /\
  data_idx before <= 4 /\ data_idx last <= 4 /\
  (exists tts' ev,
     tpm_tis_spi_transfer8 (core := fixed_core 0x5A) le64 before 0x22
     = Ok (tts', 0, ev)) /\
  (exists tts' ev,
     tpm_tis_spi_transfer8 (core := fixed_core 0x5A) le64 last 0x33
     = Ok (tts', 0x5A, ev)).
Proof.
  intros before last.
  assert (Hb : reachable (core := fixed_core 0x5A) le64 before).
  { apply (transfer_bytes_reachable le64
             [0x82; 0x00; 0x20; 0x00; 0x00; 0x11]
             (init le64 tt) _ (replicate 6 0) []).
    - apply reach_init.
    - vm_compute. reflexivity. }
  assert (Hl : reachable (core := fixed_core 0x5A) le64 last).
  { apply (transfer_bytes_reachable le64
             [0x82; 0x00; 0x20; 0x00; 0x00; 0x11; 0x22]
             (init le64 tt) _ (replicate 7 0) []).
    - apply reach_init.
    - vm_compute. reflexivity. }
  split; [exact Hb|]. split; [exact Hl|]. split; [simpl; lia|].
  split; [simpl; lia|]. split; [simpl; lia|].
  split.
  - destruct (C10_reply_when_store_in_bounds (core := fixed_core 0x5A) le64
                before 0x22 Hb ltac:(simpl; lia) ltac:(simpl; lia))
      as (tts' & r & ev & Hstep & Hr).
    cbn in Hr. subst r. exists tts', ev. exact Hstep.
  - destruct (C10_reply_when_store_in_bounds (core := fixed_core 0x5A) le64
                last 0x33 Hl ltac:(simpl; lia) ltac:(simpl; lia))
      as (tts' & r & ev & Hstep & Hr).
    cbn in Hr. subst r. exists tts', ev. exact Hstep.
Defined.

(** * Further properties of the SPI framing *)

(** ** What every reachable state satisfies *)

Section MoreInvariants.

Context {TPMState : Type} {core : TisCore TPMState}.
Variable host : Host.

Implicit Types tts : TPMStateSpi TPMState.

Lemma reachable_data_phase_addr_idx tts :
  reachable host tts -> spi_state tts = STATE_DATA -> addr_idx tts = 0.
Proof.
  induction 1 as [s0|tts tx tts' r ev _ IH Hstep|tts _ IH].
  - discriminate.
  - apply transfer8_inv in Hstep.
    destruct Hstep as [? ?|? Hi|bytes Ha ? ?|bytes Hd ? ?|v s' ? ? ? ?|? ? ?];
      simpl; try discriminate; auto.
    rewrite Ha. discriminate.
  - exact IH.
Qed.

Lemma reachable_data_idx_declared tts :
  reachable host tts ->
  data_idx tts <= data_expected_size host (first_byte tts).
Proof.
  intros Hreach. pose proof (reachable_framed host tts Hreach) as Hfr.
  revert Hfr.
  induction Hreach as [s0|tts tx tts' r ev Hreach IH Hstep|tts _ IH];
    intros Hfr.
  - simpl. pose proof (data_expected_size_range host 0). lia.
  - pose proof (reachable_framed host tts Hreach) as (_ & _ & Hd & _).
    specialize (IH (reachable_framed host tts Hreach)).
    apply transfer8_inv in Hstep.
    destruct Hstep as [? ?|? ?|bytes ? ? ?|bytes ? ? ?|v s' ? ? ? ?|? ? ?];
      simpl; try lia; try exact IH.
    rewrite uint8_small by lia. lia.
  - apply IH. exact Hfr.
Qed.

(** A run keeps [addr_idx] from growing, and keeps it non-negative. *)
Lemma transfer_bytes_addr_idx txs : forall tts tts' rs evs,
  reachable host tts ->
  transfer_bytes host tts txs = Ok (tts', rs, evs) ->
  addr_idx tts' <= addr_idx tts /\
  (evs <> [] -> addr_idx tts' = 0).
Proof.
  induction txs as [|tx txs IH]; intros tts tts' rs evs Hreach; simpl.
  - intros [= <- <- <-]. split; [lia|congruence].
  - destruct (tpm_tis_spi_transfer8 host tts tx) as [[[t1 r] ev]|f] eqn:Hstep;
      [|discriminate].
    destruct (transfer_bytes host t1 txs) as [[[t2 rs2] ev2]|f] eqn:Hrun;
      [|discriminate].
    intros [= <- <- <-].
    assert (Hreach1 : reachable host t1) by (eapply reach_transfer; eauto).
    destruct (IH _ _ _ _ Hreach1 Hrun) as [Hle Hzero].
    pose proof (addr_idx_non_increasing host _ _ _ _ _
                  (reachable_framed host _ Hreach) Hstep) as Hle1.
    pose proof (reachable_framed host _ (transfer_bytes_reachable host _ _ _
                  _ _ Hreach1 Hrun)) as (_ & Hpos & _).
    split; [lia|].
    intros Hne.
    destruct (transfer8_access host _ _ _ _ _ Hstep)
      as [[-> _]|(a & -> & Hd & _ & _ & _)].
    + apply Hzero. exact Hne.
    + pose proof (reachable_data_phase_addr_idx tts Hreach Hd). lia.
Qed.

End MoreInvariants.

(** X1: in every state the device reaches, the phase is Idle, Address or
    Data, [addr_idx] is between 0 and 3, [data_idx] is between 0 and the
    size the current header declares (at most 63), the two byte arrays keep
    their declared lengths, and the decoder is in the data phase only with
    [addr_idx] at 0. *)
Theorem X1_reachable_state_invariant
  {TPMState : Type} {core : TisCore TPMState} (host : Host)
  (tts : TPMStateSpi TPMState) :
  reachable host tts ->
  (spi_state tts = STATE_IDLE \/ spi_state tts = STATE_ADDRESS \/
   spi_state tts = STATE_DATA) /\
  0 <= addr_idx tts <= 3 /\
  0 <= data_idx tts <= data_expected_size host (first_byte tts) /\
  data_expected_size host (first_byte tts) <= 63 /\
  length (addr tts) = sizeof_hwaddr host /\
  length (data tts) = 4%nat /\
  (spi_state tts = STATE_DATA -> addr_idx tts = 0).
Proof.
  intros Hreach.
  destruct (reachable_framed host tts Hreach) as (Hph & Ha & Hd & Hla & Hld).
  pose proof (reachable_data_idx_declared host tts Hreach).
  pose proof (data_expected_size_range host (first_byte tts)).
  repeat split; auto; try lia.
  apply (reachable_data_phase_addr_idx host). exact Hreach.
Qed.

(** The state after a header declaring two bytes, the address, the call
    that leaves the address phase and one data byte. *)
Lemma X1_reachable_state_invariant_witness :
  let tts := {| state := tt; spi_state := STATE_DATA; first_byte := 0x02;
                addr := [0; 0x10; 0; 0; 0; 0; 0; 0]; data := [0; 0xAB; 0; 0];
                data_idx := 1; addr_idx := 0 |} in
  reachable (core := fixed_core 0) le64 tts /\
  0 <= data_idx tts <= data_expected_size le64 (first_byte tts) /\
  (spi_state tts = STATE_DATA -> addr_idx tts = 0).
Proof.
  intros tts.
  assert (Hreach : reachable (core := fixed_core 0) le64 tts).
  { apply (transfer_bytes_reachable le64 [0x02; 0x00; 0x10; 0x00; 0x00; 0xAB]
             (init le64 tt) _ (replicate 6 0) []).
    - apply reach_init.
    - vm_compute. reflexivity. }
  split; [exact Hreach|].
  destruct (X1_reachable_state_invariant le64 tts Hreach)
    as (_ & _ & Hd & _ & _ & _ & Hdata).
  split; [exact Hd|exact Hdata].
Defined.

(** ** When a call is undefined *)

(** The calls that do not return, in a reachable state. *)
Lemma step_undefined_iff
  {TPMState : Type} {core : TisCore TPMState} (host : Host)
  (tts : TPMStateSpi TPMState) (tx : Z) :
  reachable host tts ->
  (3 <= sizeof_hwaddr host)%nat ->
  match tpm_tis_spi_transfer8 host tts tx with
  | Ok _ => ~ (spi_state tts = STATE_DATA /\ 4 < data_idx tts)
  | Undefined f =>
      f = DataOutOfBounds (data_idx tts - 1) /\
      spi_state tts = STATE_DATA /\ 4 < data_idx tts
  end.
Proof.
  intros Hreach Hsz.
  destruct (reachable_framed host tts Hreach) as (_ & Ha & Hd & Hla & Hld).
  unfold sizeof_data in Hld.
  destruct (tpm_tis_spi_transfer8 host tts tx) as [[[tts' r] ev]|f] eqn:Hstep.
  - intros [Hs Hbig].
    rewrite transfer8_data_overflow in Hstep by (auto; lia).
    discriminate Hstep.
  - destruct (transfer8_undefined host _ _ _ Hstep)
      as [(Hs & Hi & Hst)|(Hs & Hi & Hst)].
    + exfalso. rewrite (uint8_small (addr_idx tts - 1)) in Hst by lia.
      unfold store_byte in Hst. destruct (decide _) as [|Hn]; [discriminate|].
      lia.
    + rewrite (uint8_small (data_idx tts - 1)) in Hst by lia.
      assert (4 < data_idx tts) as Hbig.
      { unfold store_byte in Hst.
        destruct (decide _) as [|Hn]; [discriminate|]. lia. }
      rewrite transfer8_data_overflow in Hstep by (auto; lia).
      injection Hstep as <-. auto.
Qed.

(** X2: on a host whose [hwaddr] has at least three bytes, a call made in a
    reachable state is undefined exactly when the decoder is in the data
    phase with more than four bytes still to store; the store that fails is
    the one at index [data_idx - 1] of the data array.  Every other call
    returns. *)
Theorem X2_undefined_iff_oversized_data
  {TPMState : Type} {core : TisCore TPMState} (host : Host)
  (tts : TPMStateSpi TPMState) (tx : Z) :
  reachable host tts ->
  (3 <= sizeof_hwaddr host)%nat ->
  match tpm_tis_spi_transfer8 host tts tx with
  | Ok _ => ~ (spi_state tts = STATE_DATA /\ 4 < data_idx tts)
  | Undefined f =>
      f = DataOutOfBounds (data_idx tts - 1) /\
      spi_state tts = STATE_DATA /\ 4 < data_idx tts
  end.
Proof. apply step_undefined_iff. Qed.

(** The call that follows the header [0x05], the address and the byte that
    leaves the address phase. *)
Lemma X2_undefined_iff_oversized_data_witness :
  let tts := {| state := tt; spi_state := STATE_DATA; first_byte := 0x05;
                addr := [0; 0x10; 0; 0; 0; 0; 0; 0]; data := [0; 0; 0; 0];
                data_idx := 5; addr_idx := 0 |} in
  reachable (core := fixed_core 0) le64 tts /\
  (3 <= sizeof_hwaddr le64)%nat /\
  tpm_tis_spi_transfer8 (core := fixed_core 0) le64 tts 0xAA
  = Undefined (DataOutOfBounds 4).
Proof.
  intros tts.
  assert (Hreach : reachable (core := fixed_core 0) le64 tts).
  { apply (transfer_bytes_reachable le64 [0x05; 0x00; 0x10; 0x00; 0x00]
             (init le64 tt) _ (replicate 5 0) []).
    - apply reach_init.
    - vm_compute. reflexivity. }
  split; [exact Hreach|]. split; [simpl; lia|].
  pose proof (X2_undefined_iff_oversized_data le64 tts 0xAA Hreach
                ltac:(simpl; lia)) as H.
  destruct (tpm_tis_spi_transfer8 le64 tts 0xAA) as [[[t r] ev]|f] eqn:Hstep.
  - exfalso. apply H. split; [reflexivity|]. simpl. lia.
  - destruct H as (-> & _ & _). reflexivity.
Defined.

(** X3: a run never reaches an undefined store when every byte that is
    taken as a header declares at most four data bytes: started in a
    reachable state with at most four bytes pending, on a host whose
    [hwaddr] has at least three bytes, every call returns, and the run
    answers each byte with one reply. *)
Theorem X3_fitting_headers_never_fault
  {TPMState : Type} {core : TisCore TPMState} (host : Host)
  (txs : list Z) (tts : TPMStateSpi TPMState) :
  reachable host tts ->
  (3 <= sizeof_hwaddr host)%nat ->
  data_idx tts <= 4 ->
  headers_fit host tts txs = true ->
  exists tts' rs evs,
    transfer_bytes host tts txs = Ok (tts', rs, evs) /\
    length rs = length txs /\
    data_idx tts' <= 4.
Proof.
  revert tts. induction txs as [|tx txs IH]; intros tts Hreach Hsz Hidx Hfit.
  - exists tts, [], []. auto.
  - cbn [headers_fit] in Hfit. apply andb_prop in Hfit as [Hhdr Hrest].
    pose proof (step_undefined_iff host tts tx Hreach Hsz) as Hret.
    destruct (tpm_tis_spi_transfer8 host tts tx) as [[[t1 r] ev]|f] eqn:Hstep.
    + assert (Hidx1 : data_idx t1 <= 4).
      { pose proof (reachable_framed host tts Hreach) as (_ & _ & Hd & _).
        pose proof Hstep as Hinv. apply transfer8_inv in Hinv.
        destruct Hinv as [Ha Hdt|? ?|bytes ? ? ?|bytes ? ? ?|v s' ? ? ? ?|? ? ?];
          simpl; try lia.
        - apply orb_prop in Hhdr as [Hhdr|Hhdr].
          + apply orb_prop in Hhdr as [Hhdr|Hhdr];
              apply Z.eqb_eq in Hhdr; contradiction.
          + apply Z.leb_le in Hhdr. unfold sizeof_data in Hhdr. simpl in Hhdr.
            exact Hhdr.
        - rewrite uint8_small by lia. lia. }
      assert (Hreach1 : reachable host t1) by (eapply reach_transfer; eauto).
      destruct (IH t1 Hreach1 Hsz Hidx1 Hrest) as (t2 & rs & evs & Hrun & Hlen & Hfin).
      exists t2, (r :: rs), (ev ++ evs).
      cbn [transfer_bytes]. rewrite Hstep, Hrun. simpl. auto.
    + exfalso. destruct Hret as (_ & _ & Hbig). lia.
Qed.

(** A one-byte write frame followed by a two-byte read frame. *)
Lemma X3_fitting_headers_never_fault_witness :
  let txs := [0x01; 0x00; 0x10; 0x00; 0x00; 0xAB; 0x00;
              0x82; 0x00; 0x00; 0x00; 0x00] in
  reachable (core := fixed_core 0x5A) le64 (init le64 tt) /\
  (3 <= sizeof_hwaddr le64)%nat /\
  data_idx (init (TPMState := unit) le64 tt) <= 4 /\
  headers_fit (core := fixed_core 0x5A) le64 (init le64 tt) txs = true /\
  exists tts' rs evs,
    transfer_bytes (core := fixed_core 0x5A) le64 (init le64 tt) txs
    = Ok (tts', rs, evs) /\
    length rs = length txs /\
    data_idx tts' <= 4.
Proof.
  intros txs.
  split; [apply reach_init|]. split; [simpl; lia|].
  split; [simpl; lia|]. split; [vm_compute; reflexivity|].
  apply (X3_fitting_headers_never_fault (core := fixed_core 0x5A) le64 txs
           (init le64 tt)).
  - apply reach_init.
  - simpl. lia.
  - simpl. lia.
  - vm_compute. reflexivity.
Defined.

(** ** The address counter *)

(** X4: [addr_idx] is written by the initialiser and by the address stores
    only: along any run from a reachable state it never grows, and once the
    run has made a register access it is 0, so that no address byte is
    stored again. *)
Theorem X4_addr_idx_only_counts_down
  {TPMState : Type} {core : TisCore TPMState} (host : Host)
  (tts tts' : TPMStateSpi TPMState) (txs rs : list Z) (evs : list Access) :
  reachable host tts ->
  transfer_bytes host tts txs = Ok (tts', rs, evs) ->
  addr_idx tts' <= addr_idx tts /\
  (evs <> [] -> addr_idx tts' = 0 /\
                forall tx, spi_state tts' = STATE_ADDRESS ->
                  tpm_tis_spi_transfer8 host tts' tx
                  = Ok (set_spi_state STATE_DATA tts', 0, [])).
Proof.
  intros Hreach Hrun.
  destruct (transfer_bytes_addr_idx host txs _ _ _ _ Hreach Hrun)
    as [Hle Hzero].
  split; [exact Hle|]. intros Hne. split; [auto|].
  intros tx Hph. apply transfer8_address_done; auto.
Qed.

(** A complete one-byte write frame, then the header of the next frame. *)
Lemma X4_addr_idx_only_counts_down_witness :
  exists tts',
    reachable (core := fixed_core 0) le64 (init le64 tt) /\
    transfer_bytes (core := fixed_core 0) le64 (init le64 tt)
      [0x01; 0x00; 0x10; 0x00; 0x00; 0xAB; 0x00; 0x01]
    = Ok (tts', replicate 8 0, [MmioWrite 0x1000 0xAB 1]) /\
    addr_idx tts' = 0 /\
    tpm_tis_spi_transfer8 (core := fixed_core 0) le64 tts' 0x20
    = Ok (set_spi_state STATE_DATA tts', 0, []).
Proof.
  eexists. split; [apply reach_init|].
  assert (Hrun : transfer_bytes (core := fixed_core 0) le64 (init le64 tt)
                   [0x01; 0x00; 0x10; 0x00; 0x00; 0xAB; 0x00; 0x01]
                 = Ok ({| state := tt; spi_state := STATE_ADDRESS;
                          first_byte := 0x01;
                          addr := [0; 0x10; 0; 0; 0; 0; 0; 0];
                          data := [0xAB; 0; 0; 0];
                          data_idx := 1; addr_idx := 0 |},
                       replicate 8 0, [MmioWrite 0x1000 0xAB 1]))
    by (vm_compute; reflexivity).
  split; [exact Hrun|].
  destruct (X4_addr_idx_only_counts_down le64 _ _ _ _ _
              (reach_init le64 tt) Hrun) as [_ Hafter].
  destruct (Hafter ltac:(discriminate)) as [Hzero Hnext].
  split; [exact Hzero|]. apply Hnext. reflexivity.
Defined.

(** ** A whole frame, from any idle state *)

Lemma le_value_app l1 l2 :
  le_value (l1 ++ l2)
  = Z.lor (le_value l1) (Z.shiftl (le_value l2) (8 * Z.of_nat (length l1))).
Proof.
  induction l1 as [|b l1 IH].
  - simpl. rewrite Z.shiftl_0_r. reflexivity.
  - cbn [app le_value length]. rewrite IH.
    rewrite Z.shiftl_lor, Z.shiftl_shiftl by lia.
    rewrite Z.lor_assoc. do 2 f_equal. lia.
Qed.

Section Frames.

Context {TPMState : Type} {core : TisCore TPMState}.
Variable host : Host.

Implicit Types tts : TPMStateSpi TPMState.

(** The header, the address bytes [addr_idx] asks for, and the call that
    leaves the address phase. *)
Lemma frame_to_data_phase tts h adr x :
  spi_state tts = STATE_IDLE ->
  addr_idx tts = Z.of_nat (length adr) ->
  (length adr <= length (addr tts))%nat ->
  (length adr <= 256)%nat ->
  transfer_bytes host tts (h :: adr ++ [x])
  = Ok ({| state := state tts; spi_state := STATE_DATA;
           first_byte := uint8 h;
           addr := rev (uint8 <$> adr) ++ drop (length adr) (addr tts);
           data := data tts;
           data_idx := data_expected_size host (uint8 h); addr_idx := 0 |},
        replicate (2 + length adr) 0, []).
Proof.
  intros Hs Hai Halen Ha256.
  change (h :: adr ++ [x]) with ([h] ++ adr ++ [x]).
  erewrite transfer_bytes_app; cycle 1.
  { cbn [transfer_bytes]. rewrite transfer8_idle by assumption. reflexivity. }
  erewrite transfer_bytes_app; cycle 1.
  { apply address_phase; simpl; auto. }
  cbn [transfer_bytes]. rewrite transfer8_address_done by reflexivity.
  simpl. change [0] with (0 :: replicate 0 0).
  rewrite replicate_zero_middle, Nat.add_0_r. reflexivity.
Qed.

(** The whole frame: the reply and the access of its last call, and the
    state it leaves. *)
Lemma frame_from_idle tts h adr x ds y :
  spi_state tts = STATE_IDLE ->
  addr_idx tts = Z.of_nat (length adr) ->
  (length adr <= length (addr tts))%nat ->
  (length adr <= 256)%nat ->
  data_expected_size host (uint8 h) = Z.of_nat (length ds) ->
  (length ds <= length (data tts))%nat ->
  let abytes := rev (uint8 <$> adr) ++ drop (length adr) (addr tts) in
  let dbytes := rev (uint8 <$> ds) ++ drop (length ds) (data tts) in
  let a := overlay_value host abytes in
  let n := Z.of_nat (length ds) in
  exists fin r acc,
    transfer_bytes host tts ((h :: adr ++ x :: ds) ++ [y])
    = Ok (fin, replicate (2 + length adr + length ds) 0 ++ [r], [acc]) /\
    (if rwflag host (uint8 h)
     then acc = MmioRead a n /\
          r = uint32 (fst (tpm_tis_mmio_read (state tts) a n)) /\
          state fin = snd (tpm_tis_mmio_read (state tts) a n)
     else acc = MmioWrite a (overlay_value host dbytes) n /\
          r = 0 /\
          state fin
          = tpm_tis_mmio_write (state tts) a (overlay_value host dbytes) n) /\
    spi_state fin = STATE_IDLE /\ first_byte fin = uint8 h /\
    addr fin = abytes /\ data fin = dbytes /\
    data_idx fin = 0 /\ addr_idx fin = 0.
Proof.
  intros Hs Hai Halen Ha256 Hsize Hdlen abytes dbytes a n.
  pose proof (frame_prefix host tts h adr x ds Hs Hai Halen Ha256 Hsize Hdlen)
    as Hmid.
  fold abytes dbytes in Hmid.
  destruct (rwflag host (uint8 h)) eqn:Hrw.
  - match type of Hmid with _ = Ok (?m, _, _) =>
      pose proof (transfer8_read host m y eq_refl eq_refl Hrw) as Hstep
    end.
    cbn [addr data first_byte state] in Hstep. rewrite Hsize in Hstep.
    fold a n in Hstep.
    pose proof (transfer_bytes_snoc host _ _ _ _ _ _ _ _ _ Hmid Hstep) as Hfin.
    eexists. eexists. eexists. split; [exact Hfin|].
    repeat split; reflexivity.
  - match type of Hmid with _ = Ok (?m, _, _) =>
      pose proof (transfer8_write host m y eq_refl eq_refl Hrw) as Hstep
    end.
    cbn [addr data first_byte state] in Hstep. rewrite Hsize in Hstep.
    fold a n in Hstep.
    pose proof (transfer_bytes_snoc host _ _ _ _ _ _ _ _ _ Hmid Hstep) as Hfin.
    eexists. eexists. eexists. split; [exact Hfin|].
    repeat split; reflexivity.
Qed.

End Frames.

(** X5: from any idle state, a frame is the header, as many address bytes
    as [addr_idx] holds, one byte on which the decoder only leaves the
    address phase, the declared number of data bytes, and one last byte on
    which the register access is made.  The bytes [x] and [y] of the two
    extra calls are not used; all replies but the last are 0; the access
    is a read or a write according to the header's direction bit, of the
    declared width, at the address held by the address array, whose
    entries above the stored bytes are the old ones, and a write passes
    the value of the data array, whose entries above the stored bytes are
    the old ones too.  The frame leaves the decoder idle with both
    counters at 0. *)
Theorem X5_frame_from_idle
  {TPMState : Type} {core : TisCore TPMState} (host : Host)
  (tts : TPMStateSpi TPMState) (h x y : Z) (adr ds : list Z) :
  spi_state tts = STATE_IDLE ->
  addr_idx tts = Z.of_nat (length adr) ->
  (length adr <= length (addr tts))%nat ->
  (length adr <= 256)%nat ->
  data_expected_size host (uint8 h) = Z.of_nat (length ds) ->
  (length ds <= length (data tts))%nat ->
  let abytes := rev (uint8 <$> adr) ++ drop (length adr) (addr tts) in
  let dbytes := rev (uint8 <$> ds) ++ drop (length ds) (data tts) in
  let a := overlay_value host abytes in
  let n := Z.of_nat (length ds) in
  exists fin r acc,
    transfer_bytes host tts ((h :: adr ++ x :: ds) ++ [y])
    = Ok (fin, replicate (2 + length adr + length ds) 0 ++ [r], [acc]) /\
    (if rwflag host (uint8 h)
     then acc = MmioRead a n /\
          r = uint32 (fst (tpm_tis_mmio_read (state tts) a n)) /\
          state fin = snd (tpm_tis_mmio_read (state tts) a n)
     else acc = MmioWrite a (overlay_value host dbytes) n /\
          r = 0 /\
          state fin
          = tpm_tis_mmio_write (state tts) a (overlay_value host dbytes) n) /\
    spi_state fin = STATE_IDLE /\ first_byte fin = uint8 h /\
    addr fin = abytes /\ data fin = dbytes /\
    data_idx fin = 0 /\ addr_idx fin = 0.
Proof. apply frame_from_idle. Qed.

(** A read of two bytes at [0x2000] as the first frame, from a register
    file that returns [0x5A]. *)
Lemma X5_frame_from_idle_witness :
  spi_state (init (TPMState := unit) le64 tt) = STATE_IDLE /\
  addr_idx (init (TPMState := unit) le64 tt)
  = Z.of_nat (length [0x00; 0x20; 0x00]) /\
  data_expected_size le64 (uint8 0x82) = Z.of_nat (length [0x22; 0x33]) /\
  exists fin,
    transfer_bytes (core := fixed_core 0x5A) le64 (init le64 tt)
      [0x82; 0x00; 0x20; 0x00; 0x11; 0x22; 0x33; 0x44]
    = Ok (fin, [0; 0; 0; 0; 0; 0; 0; 0x5A], [MmioRead 0x2000 2]) /\
    spi_state fin = STATE_IDLE /\
    data fin = [0x33; 0x22; 0; 0] /\
    data_idx fin = 0 /\ addr_idx fin = 0.
Proof.
  split; [reflexivity|]. split; [reflexivity|]. split; [reflexivity|].
  destruct (X5_frame_from_idle (core := fixed_core 0x5A) le64 (init le64 tt)
              0x82 0x11 0x44 [0x00; 0x20; 0x00] [0x22; 0x33]
              eq_refl eq_refl ltac:(simpl; lia) ltac:(simpl; lia)
              eq_refl ltac:(simpl; lia))
    as (fin & r & acc & Hrun & Hacc & Hph & _ & _ & Hdata & Hdi & Hai).
  cbn iota in Hacc. change (rwflag le64 (uint8 130)) with true in Hacc.
  destruct Hacc as (-> & -> & _).
  exists fin. split; [exact Hrun|]. split; [exact Hph|].
  split; [exact Hdata|]. split; [exact Hdi|exact Hai].
Defined.

(** X6: the frame that follows a completed frame stores no address byte,
    and its access goes to the address of the frame before it, whatever
    bytes it carries. *)
Theorem X6_next_frame_reuses_address
  {TPMState : Type} {core : TisCore TPMState} (host : Host)
  (tts : TPMStateSpi TPMState)
  (h1 x1 y1 : Z) (adr ds1 : list Z) (h2 x2 y2 : Z) (ds2 : list Z) :
  spi_state tts = STATE_IDLE ->
  addr_idx tts = Z.of_nat (length adr) ->
  (length adr <= length (addr tts))%nat ->
  (length adr <= 256)%nat ->
  data_expected_size host (uint8 h1) = Z.of_nat (length ds1) ->
  (length ds1 <= length (data tts))%nat ->
  data_expected_size host (uint8 h2) = Z.of_nat (length ds2) ->
  (length ds2 <= length (data tts))%nat ->
  exists fin rs acc1 acc2,
    transfer_bytes host tts
      (((h1 :: adr ++ x1 :: ds1) ++ [y1]) ++ ((h2 :: x2 :: ds2) ++ [y2]))
    = Ok (fin, rs, [acc1; acc2]) /\
    access_addr acc1
    = overlay_value host
        (rev (uint8 <$> adr) ++ drop (length adr) (addr tts)) /\
    access_addr acc2 = access_addr acc1 /\
    addr fin = rev (uint8 <$> adr) ++ drop (length adr) (addr tts) /\
    addr_idx fin = 0.
Proof.
  intros Hs Hai Halen Ha256 Hsize1 Hdlen1 Hsize2 Hdlen2.
  destruct (frame_from_idle host tts h1 adr x1 ds1 y1
              Hs Hai Halen Ha256 Hsize1 Hdlen1)
    as (fin1 & r1 & acc1 & Hrun1 & Hacc1 & Hph1 & _ & Haddr1 & Hdata1
        & _ & Hai1).
  assert (Hlen1 : length (data fin1) = length (data tts)).
  { rewrite Hdata1, length_app, length_rev, length_fmap, length_drop. lia. }
  destruct (frame_from_idle host fin1 h2 [] x2 ds2 y2
              Hph1 Hai1 ltac:(simpl; lia) ltac:(simpl; lia) Hsize2
              ltac:(rewrite Hlen1; exact Hdlen2))
    as (fin & r2 & acc2 & Hrun2 & Hacc2 & _ & _ & Haddr2 & _ & _ & Hai2).
  cbn [app length rev fmap list_fmap drop] in Hacc2, Haddr2.
  change ((h2 :: [] ++ x2 :: ds2) ++ [y2]) with ((h2 :: x2 :: ds2) ++ [y2])
    in Hrun2.
  rewrite (transfer_bytes_app host _ _ _ _ _ _ Hrun1), Hrun2.
  eexists. eexists. exists acc1, acc2. split; [reflexivity|].
  assert (Ha1 : access_addr acc1
                = overlay_value host
                    (rev (uint8 <$> adr) ++ drop (length adr) (addr tts))).
  { destruct (rwflag host (uint8 h1)); destruct Hacc1 as (-> & _); reflexivity. }
  assert (Ha2 : access_addr acc2 = overlay_value host (addr fin1)).
  { destruct (rwflag host (uint8 h2)); destruct Hacc2 as (-> & _); reflexivity. }
  split; [exact Ha1|]. split; [rewrite Ha2, Ha1, Haddr1; reflexivity|].
  split; [rewrite Haddr2; exact Haddr1|exact Hai2].
Qed.

(** A write at [0x1000], then a frame whose bytes spell the address
    [0x2000]: both accesses are at [0x1000]. *)
Lemma X6_next_frame_reuses_address_witness :
  spi_state (init (TPMState := unit) le64 tt) = STATE_IDLE /\
  addr_idx (init (TPMState := unit) le64 tt)
  = Z.of_nat (length [0x00; 0x10; 0x00]) /\
  data_expected_size le64 (uint8 0x01) = Z.of_nat (length [0xAB]) /\
  exists fin rs acc1 acc2,
    transfer_bytes (core := fixed_core 0) le64 (init le64 tt)
      [0x01; 0x00; 0x10; 0x00; 0x00; 0xAB; 0x00;
       0x01; 0x00; 0x20; 0x00]
    = Ok (fin, rs, [acc1; acc2]) /\
    access_addr acc1 = 0x1000 /\
    access_addr acc2 = access_addr acc1.
Proof.
  split; [reflexivity|]. split; [reflexivity|]. split; [reflexivity|].
  destruct (X6_next_frame_reuses_address (core := fixed_core 0) le64
              (init le64 tt) 0x01 0x00 0x00 [0x00; 0x10; 0x00] [0xAB]
              0x01 0x00 0x00 [0x20]
              eq_refl eq_refl ltac:(simpl; lia) ltac:(simpl; lia)
              eq_refl ltac:(simpl; lia) eq_refl ltac:(simpl; lia))
    as (fin & rs & acc1 & acc2 & Hrun & Ha1 & Ha2 & _).
  exists fin, rs, acc1, acc2.
  split; [exact Hrun|]. split; [exact Ha1|exact Ha2].
Defined.

(** X7: the data array is never cleared.  On a little-endian host a write
    frame of N bytes passes the N bytes received, first byte most
    significant, in the low 8N bits of the value, and above them the
    entries N.. of the data array as earlier frames left them. *)
Theorem X7_write_value_keeps_old_bytes
  {TPMState : Type} {core : TisCore TPMState} (host : Host)
  (tts : TPMStateSpi TPMState) (h x y : Z) (adr ds : list Z) :
  big_endian host = false ->
  rwflag host (uint8 h) = false ->
  spi_state tts = STATE_IDLE ->
  addr_idx tts = Z.of_nat (length adr) ->
  (length adr <= length (addr tts))%nat ->
  (length adr <= 256)%nat ->
  data_expected_size host (uint8 h) = Z.of_nat (length ds) ->
  (length ds <= length (data tts))%nat ->
  exists fin rs a,
    transfer_bytes host tts ((h :: adr ++ x :: ds) ++ [y])
    = Ok (fin, rs,
          [MmioWrite a
             (Z.lor (le_value (rev (uint8 <$> ds)))
                (Z.shiftl (le_value (drop (length ds) (data tts)))
                   (8 * Z.of_nat (length ds))))
             (Z.of_nat (length ds))]).
Proof.
  intros Hle Hrw Hs Hai Halen Ha256 Hsize Hdlen.
  destruct (frame_from_idle host tts h adr x ds y
              Hs Hai Halen Ha256 Hsize Hdlen)
    as (fin & r & acc & Hrun & Hacc & _).
  rewrite Hrw in Hacc. destruct Hacc as (-> & _ & _).
  unfold overlay_value in Hrun at 2. rewrite Hle in Hrun.
  rewrite le_value_app, length_rev, length_fmap in Hrun.
  eexists. eexists. eexists. exact Hrun.
Qed.

(** After a four-byte write of [0xABCDEF01], a one-byte write of [0x20]
    passes [0xABCDEF20] with width 1. *)
Lemma X7_write_value_keeps_old_bytes_witness :
  let tts := {| state := tt; spi_state := STATE_IDLE; first_byte := 0x04;
                addr := [0; 0x10; 0; 0; 0; 0; 0; 0];
                data := [0x01; 0xEF; 0xCD; 0xAB];
                data_idx := 0; addr_idx := 0 |} in
  transfer_bytes (core := fixed_core 0) le64 (init le64 tt)
    [0x04; 0x00; 0x10; 0x00; 0x00; 0xAB; 0xCD; 0xEF; 0x01; 0x00]
  = Ok (tts, replicate 10 0, [MmioWrite 0x1000 0xABCDEF01 4]) /\
  big_endian le64 = false /\
  rwflag le64 (uint8 0x01) = false /\
  spi_state tts = STATE_IDLE /\ addr_idx tts = 0 /\
  data_expected_size le64 (uint8 0x01) = Z.of_nat (length [0x20]) /\
  exists fin rs,
    transfer_bytes (core := fixed_core 0) le64 tts [0x01; 0x00; 0x20; 0x00]
    = Ok (fin, rs, [MmioWrite 0x1000 0xABCDEF20 1]).
Proof.
  intros tts. split; [vm_compute; reflexivity|].
  do 5 (split; [reflexivity|]).
  destruct (X7_write_value_keeps_old_bytes (core := fixed_core 0) le64 tts
              0x01 0x00 0x00 [] [0x20]
              eq_refl eq_refl eq_refl eq_refl ltac:(simpl; lia)
              ltac:(simpl; lia) eq_refl ltac:(simpl; lia))
    as (fin & rs & a & Hrun).
  exists fin, rs.
  assert (Ha : a = 0x1000).
  { vm_compute in Hrun. injection Hrun as _ _ Ha. symmetry. exact Ha. }
  rewrite Ha in Hrun. exact Hrun.
Defined.

(** ** The TIS core and the framing *)

Section CoreAndFraming.

Context {TPMState : Type} {core : TisCore TPMState}.
Variable host : Host.

Implicit Types tts : TPMStateSpi TPMState.

Lemma transfer8_same_decoder t1 t2 tx :
  same_decoder t1 t2 ->
  match tpm_tis_spi_transfer8 host t1 tx, tpm_tis_spi_transfer8 host t2 tx with
  | Ok (a, _, ev1), Ok (b, _, ev2) => same_decoder a b /\ ev1 = ev2
  | Undefined f1, Undefined f2 => f1 = f2
  | _, _ => False
  end.
Proof.
  destruct t1 as [s1 ph fb ad da di ai], t2 as [s2 ph2 fb2 ad2 da2 di2 ai2].
  intros (Hph & Hfb & Had & Hda & Hdi & Hai). simpl in *. subst.
  unfold tpm_tis_spi_transfer8; cbn [spi_state addr_idx data_idx addr data
                                     first_byte state].
  destruct (ph2 =? STATE_ADDRESS).
  - destruct (ai2 =? 0).
    + repeat split.
    + destruct (store_byte ad2 _ _); [repeat split|reflexivity].
  - destruct (ph2 =? STATE_DATA).
    + destruct (di2 =? 0).
      * destruct (rwflag host fb2).
        -- destruct (tpm_tis_mmio_read s1 _ _), (tpm_tis_mmio_read s2 _ _).
           repeat split.
        -- repeat split.
      * destruct (store_byte da2 _ _); [repeat split|reflexivity].
    + destruct (ph2 =? STATE_IDLE); repeat split.
Qed.

Lemma transfer_bytes_same_decoder txs : forall t1 t2,
  same_decoder t1 t2 ->
  match transfer_bytes host t1 txs, transfer_bytes host t2 txs with
  | Ok (a, rs1, ev1), Ok (b, rs2, ev2) =>
      same_decoder a b /\ ev1 = ev2 /\ length rs1 = length rs2
  | Undefined f1, Undefined f2 => f1 = f2
  | _, _ => False
  end.
Proof.
  induction txs as [|tx txs IH]; intros t1 t2 Hsame; cbn [transfer_bytes].
  - auto.
  - pose proof (transfer8_same_decoder t1 t2 tx Hsame) as Hstep.
    destruct (tpm_tis_spi_transfer8 host t1 tx) as [[[a r1] ev1]|f1],
             (tpm_tis_spi_transfer8 host t2 tx) as [[[b r2] ev2]|f2];
      try contradiction; [|exact Hstep].
    destruct Hstep as [Hab ->].
    specialize (IH a b Hab).
    destruct (transfer_bytes host a txs) as [[[a' rs1] evs1]|g1],
             (transfer_bytes host b txs) as [[[b' rs2] evs2]|g2];
      try contradiction; [|exact IH].
    destruct IH as (Hab' & -> & Hlen). simpl. auto.
Qed.

Lemma transfer_bytes_core_untouched txs : forall tts tts' rs,
  transfer_bytes host tts txs = Ok (tts', rs, []) ->
  state tts' = state tts.
Proof.
  induction txs as [|tx txs IH]; intros tts tts' rs; cbn [transfer_bytes].
  - intros [= <- _]. reflexivity.
  - destruct (tpm_tis_spi_transfer8 host tts tx) as [[[t1 r] ev]|f] eqn:Hstep;
      [|discriminate].
    destruct (transfer_bytes host t1 txs) as [[[t2 rs2] ev2]|f] eqn:Hrun;
      [|discriminate].
    intros [= <- _ Hev]. apply app_eq_nil in Hev as [-> ->].
    rewrite (IH _ _ _ Hrun).
    apply transfer8_inv in Hstep.
    inversion Hstep; subst; reflexivity.
Qed.

End CoreAndFraming.

(** X8: the decoder touches the TIS core through the register access only:
    a run that makes no access leaves the core as it was. *)
Theorem X8_core_changes_only_by_access
  {TPMState : Type} {core : TisCore TPMState} (host : Host)
  (tts tts' : TPMStateSpi TPMState) (txs rs : list Z) :
  transfer_bytes host tts txs = Ok (tts', rs, []) ->
  state tts' = state tts.
Proof. apply transfer_bytes_core_untouched. Qed.

(** A frame short of its last call, over a core that counts its calls. *)
Lemma X8_core_changes_only_by_access_witness :
  exists tts',
    transfer_bytes (core := counting_core) le64 (init le64 41)
      [0x02; 0x00; 0x10; 0x00; 0x00; 0xAB; 0xCD]
    = Ok (tts', replicate 7 0, []) /\
    state tts' = 41.
Proof.
  eexists.
  eassert (Hrun : transfer_bytes (core := counting_core) le64 (init le64 41)
                    [0x02; 0x00; 0x10; 0x00; 0x00; 0xAB; 0xCD]
                  = Ok (_, replicate 7 0, [])) by (vm_compute; reflexivity).
  split; [exact Hrun|].
  exact (X8_core_changes_only_by_access le64 _ _ _ _ Hrun).
Defined.

(** X9: the framing does not depend on the TIS core.  Two devices whose
    decoder fields agree, whatever their cores hold and return, go through
    the same phases, counters and buffers on the same bytes, make the same
    register accesses (kind, address, value, width), and reach an
    out-of-bounds store on the same call or not at all; a reset of the core
    in between changes none of this. *)
Theorem X9_framing_ignores_core
  {TPMState : Type} {core : TisCore TPMState} (host : Host)
  (t1 t2 : TPMStateSpi TPMState) (txs : list Z) :
  same_decoder t1 t2 ->
  match transfer_bytes host t1 txs, transfer_bytes host t2 txs with
  | Ok (a, rs1, ev1), Ok (b, rs2, ev2) =>
      same_decoder a b /\ ev1 = ev2 /\ length rs1 = length rs2
  | Undefined f1, Undefined f2 => f1 = f2
  | _, _ => False
  end.
Proof. apply transfer_bytes_same_decoder. Qed.

(** A read frame on a device as initialised and on the same device after a
    reset of a core that had counted to 41: the same access, and replies
    that differ in the value read. *)
Lemma X9_framing_ignores_core_witness :
  let t1 := init le64 41 in
  let t2 := fst (tpm_tis_spi_reset (core := counting_core) (init le64 41)) in
  let txs := [0x81; 0x00; 0x20; 0x00; 0x00; 0x00; 0x00] in
  same_decoder t1 t2 /\
  exists a b,
    transfer_bytes (core := counting_core) le64 t1 txs
    = Ok (a, [0; 0; 0; 0; 0; 0; 41], [MmioRead 0x2000 1]) /\
    transfer_bytes (core := counting_core) le64 t2 txs
    = Ok (b, [0; 0; 0; 0; 0; 0; 0], [MmioRead 0x2000 1]) /\
    same_decoder a b.
Proof.
  intros t1 t2 txs.
  assert (Hsame : same_decoder t1 t2) by (repeat split).
  split; [exact Hsame|].
  pose proof (X9_framing_ignores_core (core := counting_core) le64 t1 t2 txs
                Hsame) as H.
  destruct (transfer_bytes (core := counting_core) le64 t1 txs)
    as [[[a rs1] ev1]|f1] eqn:H1;
    [|vm_compute in H1; discriminate H1].
  destruct (transfer_bytes (core := counting_core) le64 t2 txs)
    as [[[b rs2] ev2]|f2] eqn:H2;
    [|vm_compute in H2; discriminate H2].
  destruct H as (Hab & _ & _).
  exists a, b.
  vm_compute in H1. injection H1 as <- <- <-.
  vm_compute in H2. injection H2 as <- <- <-.
  split; [reflexivity|]. split; [reflexivity|]. repeat split.
Defined.

(** ** Headers that declare more than the data array holds *)

(** X10: from any idle state, a header that declares more bytes than the
    data array holds makes the first data byte of the frame an
    out-of-bounds store, at the index one below the declared size; the
    calls before it return with reply 0 and make no access. *)
Theorem X10_oversized_header_faults
  {TPMState : Type} {core : TisCore TPMState} (host : Host)
  (tts : TPMStateSpi TPMState) (h x d : Z) (adr : list Z) :
  spi_state tts = STATE_IDLE ->
  addr_idx tts = Z.of_nat (length adr) ->
  (length adr <= length (addr tts))%nat ->
  (length adr <= 256)%nat ->
  Z.of_nat (length (data tts)) < data_expected_size host (uint8 h) ->
  (exists mid,
     transfer_bytes host tts (h :: adr ++ [x])
     = Ok (mid, replicate (2 + length adr) 0, []) /\
     spi_state mid = STATE_DATA /\
     data_idx mid = data_expected_size host (uint8 h)) /\
  transfer_bytes host tts ((h :: adr ++ [x]) ++ [d])
  = Undefined (DataOutOfBounds (data_expected_size host (uint8 h) - 1)).
Proof.
  intros Hs Hai Halen Ha256 Hbig.
  pose proof (data_expected_size_range host (uint8 h)) as Hrange.
  pose proof (frame_to_data_phase host tts h adr x Hs Hai Halen Ha256) as Hmid.
  split.
  - eexists. split; [exact Hmid|]. split; reflexivity.
  - rewrite (transfer_bytes_app host _ _ _ _ _ _ Hmid).
    cbn [transfer_bytes].
    rewrite transfer8_data_overflow; [reflexivity|reflexivity|].
    cbn [data data_idx]. lia.
Qed.

(** The header [0x3F] right after initialisation. *)
Lemma X10_oversized_header_faults_witness :
  spi_state (init (TPMState := unit) le64 tt) = STATE_IDLE /\
  Z.of_nat (length (data (init (TPMState := unit) le64 tt)))
  < data_expected_size le64 (uint8 0x3F) /\
  transfer_bytes (core := fixed_core 0) le64 (init le64 tt)
    [0x3F; 0x00; 0x10; 0x00; 0x00; 0xAA]
  = Undefined (DataOutOfBounds 62).
Proof.
  split; [reflexivity|]. split; [vm_compute; reflexivity|].
  exact (proj2 (X10_oversized_header_faults (core := fixed_core 0) le64
                  (init le64 tt) 0x3F 0x00 0xAA [0x00; 0x10; 0x00]
                  eq_refl eq_refl ltac:(simpl; lia) ltac:(simpl; lia)
                  ltac:(vm_compute; reflexivity))).
Defined.

(** ** The address on a big-endian host *)

(** X11: on a big-endian host with 64-bit addresses the three address
    bytes of the first frame, stored at indices 2, 1 and 0 of the overlay,
    are read back as bits 47..40, 55..48 and 63..56 of the address: the
    24-bit value with the bytes in the opposite order, shifted up by 40
    bits. *)
Theorem X11_first_frame_address_big_endian
  {TPMState : Type} {core : TisCore TPMState}
  (s0 : TPMState) (h a2 a1 a0 : Z) :
  exists t4,
    transfer_bytes be64 (init be64 s0) [h; a2; a1; a0]
    = Ok (t4, [0; 0; 0; 0], []) /\
    overlay_value be64 (addr t4)
    = Z.shiftl
        (Z.lor (Z.shiftl (uint8 a0) 16)
           (Z.lor (Z.shiftl (uint8 a1) 8) (uint8 a2))) 40.
Proof.
  eexists. split; [apply first_frame_address; simpl; lia|].
  cbn [addr]. unfold overlay_value. cbn [big_endian be64 sizeof_hwaddr].
  change (rev ([uint8 a0; uint8 a1; uint8 a2] ++ replicate (8 - 3) 0))
    with ([0; 0; 0; 0; 0] ++ [uint8 a2; uint8 a1; uint8 a0] ++ replicate 0 0).
  rewrite le_value_app, le_value_three. reflexivity.
Qed.

(** * Properties of the I2C-to-network relay *)

Import Relay.

Ltac relay_cases H :=
  repeat match type of H with
  | Exits = Returns _ => discriminate H
  | Aborts = Returns _ => discriminate H
  | context [Nat.eqb ?a ?b] => destruct (Nat.eqb_spec a b)
  | context [Nat.leb ?a ?b] => destruct (Nat.leb_spec a b)
  | context [Z.eqb ?a ?b] => destruct (Z.eqb_spec a b)
  | context [net_i2c_do_write ?d] =>
      let Hw := fresh "Hw" in
      destruct (net_i2c_do_write d) as [[? ?]| |] eqn:Hw
  | context [qemu_receive_packet ?n ?r] =>
      destruct (qemu_receive_packet n r) as [[? ?] ?]
  end.

Section RelayLemmas.

Context {Net : Type} {net : NetClient Net}.
Variable debug : bool.

Implicit Types dev : NetI2C Net.

Lemma do_write_inv dev d pkts :
  net_i2c_do_write dev = Returns (d, pkts) ->
  data_buf d = data_buf dev /\ data_len d = data_len dev /\
  mode d = mode dev /\
  pkts = [take (data_len dev) (data_buf dev)] /\
  netdev d = snd (qemu_send_packet (netdev dev)
                    (take (data_len dev) (data_buf dev))).
Proof.
  unfold net_i2c_do_write.
  destruct (qemu_send_packet _ _) as [size n'].
  destruct (size =? _); [|discriminate].
  intros [= <- <-]. repeat split.
Qed.

Lemma step_inv size dev c dev' r pk :
  relay_inv size dev ->
  step debug dev c = Returns (dev', r, pk) ->
  relay_inv size dev'.
Proof.
  intros (Hlen & Hle & Hidle) Hstep. unfold relay_inv.
  destruct c as [e| |data]; cbn [step] in Hstep.
  - unfold net_i2c_event, BADF in Hstep.
    destruct e, (mode dev) eqn:Hm, debug; cbv beta zeta in Hstep;
      relay_cases Hstep;
      try match goal with
          | Hw : net_i2c_do_write _ = Returns _ |- _ =>
              apply do_write_inv in Hw as (Hb & Hl & _)
          end;
      injection Hstep as <- _ _; simpl;
      rewrite ?Hb, ?Hl; repeat split; auto; try lia; try discriminate;
      try (intros ?; congruence).
  - unfold net_i2c_recv, BADF in Hstep.
    destruct (mode dev) eqn:Hm, debug; cbv beta zeta in Hstep;
      relay_cases Hstep;
      injection Hstep as <- _ _; simpl; rewrite ?Hm;
      repeat split; auto; try lia; try discriminate;
      try (intros ?; congruence).
  - unfold net_i2c_send, BADF in Hstep.
    destruct (mode dev) eqn:Hm, debug; cbv beta zeta in Hstep;
      relay_cases Hstep;
      injection Hstep as <- _ _; simpl; rewrite ?length_insert, ?Hm;
      repeat split; auto; try lia; try discriminate;
      try (intros ?; congruence).
Qed.

Lemma reachable_inv size dev :
  reachable debug size dev -> relay_inv size dev.
Proof.
  induction 1 as [n|dev c dev' r pk _ IH Hstep].
  - unfold relay_inv, init. simpl. rewrite length_replicate.
    repeat split; auto; lia.
  - eapply step_inv; eassumption.
Qed.

End RelayLemmas.

Lemma zeros_around (n : nat) :
  0 :: replicate n 0 ++ [0] = replicate (n + 2) 0.
Proof.
  induction n as [|n IH]; [reflexivity|].
  simpl in *. rewrite IH. reflexivity.
Qed.

Section RelayRuns.

Context {Net : Type} {net : NetClient Net}.
Variable debug : bool.

Implicit Types dev : NetI2C Net.

Lemma run_reachable size cs : forall dev dev' rs pks,
  reachable debug size dev ->
  run debug dev cs = Returns (dev', rs, pks) ->
  reachable debug size dev'.
Proof.
  induction cs as [|c cs IH]; intros dev dev' rs pks Hreach; cbn [run].
  - intros [= <- _ _]. exact Hreach.
  - destruct (step debug dev c) as [[[d1 r] pk]| |] eqn:Hstep;
      try discriminate.
    destruct (run debug d1 cs) as [[[d2 rs2] pk2]| |] eqn:Hrun;
      try discriminate.
    intros [= <- _ _]. eapply IH; [|exact Hrun].
    eapply reach_step; eassumption.
Qed.

Lemma run_app dev cs1 cs2 d1 rs1 pk1 :
  run debug dev cs1 = Returns (d1, rs1, pk1) ->
  run debug dev (cs1 ++ cs2)
  = match run debug d1 cs2 with
    | Returns (d2, rs2, pk2) => Returns (d2, rs1 ++ rs2, pk1 ++ pk2)
    | Exits => Exits
    | Aborts => Aborts
    end.
Proof.
  revert dev rs1 pk1. induction cs1 as [|c cs1 IH]; intros dev rs1 pk1;
    cbn [run app].
  - intros [= -> <- <-].
    destruct (run debug d1 cs2) as [[[d2 rs2] pk2]| |]; reflexivity.
  - destruct (step debug dev c) as [[[da r] pk]| |]; try discriminate.
    destruct (run debug da cs1) as [[[db rs] pks]| |] eqn:Hrun;
      try discriminate.
    intros [= -> <- <-]. rewrite (IH _ _ _ Hrun).
    destruct (run debug d1 cs2) as [[[d2 rs2] pk2]| |]; try reflexivity.
    rewrite <- app_assoc. reflexivity.
Qed.

(** The bytes of a write are stored one after the other from index
    [data_len] on, as long as they fit. *)
Lemma send_phase bs : forall dev,
  mode dev = NET_I2C_WRITE_DATA ->
  (data_len dev + length bs <= length (data_buf dev))%nat ->
  run debug dev (Send <$> bs)
  = Returns ({| netdev := netdev dev;
                data_buf := take (data_len dev) (data_buf dev)
                            ++ (uint8 <$> bs)
                            ++ drop (data_len dev + length bs) (data_buf dev);
                data_len := data_len dev + length bs;
                mode := NET_I2C_WRITE_DATA |},
             replicate (length bs) 0, []).
Proof.
  induction bs as [|b bs IH]; intros dev Hm Hfit; cbn [fmap list_fmap run].
  - simpl. rewrite Nat.add_0_r, take_drop.
    destruct dev; simpl in *. subst. reflexivity.
  - simpl in Hfit. cbn [step]. unfold net_i2c_send. rewrite Hm.
    destruct (Nat.leb_spec (length (data_buf dev)) (data_len dev)); [lia|].
    change (Send <$> bs) with (list_fmap Z call Send bs) in IH.
    rewrite IH; cbn [mode data_len data_buf netdev set_data_len set_data_buf];
      rewrite ?length_insert; auto; try lia.
    rewrite (take_S_r _ _ (uint8 b)) by (apply list_lookup_insert_eq; lia).
    rewrite take_insert_ge by lia.
    rewrite drop_insert_lt by lia.
    rewrite <- app_assoc. cbn [length app replicate].
    replace (S (data_len dev) + length bs)%nat
      with (data_len dev + S (length bs))%nat by lia.
    reflexivity.
Qed.

(** Under the debug macros a returning call never leaves the device
    confused. *)
Lemma step_not_confused dev c dev' r pk :
  mode dev <> NET_I2C_CONFUSED ->
  step true dev c = Returns (dev', r, pk) ->
  mode dev' <> NET_I2C_CONFUSED.
Proof.
  intros Hnc Hstep.
  destruct c as [e| |data]; cbn [step] in Hstep.
  - unfold net_i2c_event, BADF in Hstep.
    destruct e, (mode dev) eqn:Hm; cbv beta zeta in Hstep;
      relay_cases Hstep;
      try match goal with
          | Hw : net_i2c_do_write _ = Returns _ |- _ =>
              apply do_write_inv in Hw as (_ & _ & Hmd & _)
          end;
      injection Hstep as <- _ _; simpl; rewrite ?Hm; try discriminate;
      try congruence.
  - unfold net_i2c_recv, BADF in Hstep.
    destruct (mode dev) eqn:Hm; cbv beta zeta in Hstep;
      relay_cases Hstep;
      injection Hstep as <- _ _; simpl; rewrite ?Hm; discriminate.
  - unfold net_i2c_send, BADF in Hstep.
    destruct (mode dev) eqn:Hm; cbv beta zeta in Hstep;
      relay_cases Hstep;
      injection Hstep as <- _ _; simpl; rewrite ?Hm; discriminate.
Qed.

End RelayRuns.

(** X12: in either build, every device the bus can find has a buffer of
    the declared size and a byte count within it, and is idle only with an
    empty buffer, so that the next write starts at index 0; no call stores
    outside the buffer. *)
Theorem X12_relay_buffer_bounds
  {Net : Type} {net : NetClient Net} (debug : bool) (size : nat)
  (dev : NetI2C Net) :
  reachable debug size dev ->
  length (data_buf dev) = size /\
  (data_len dev <= size)%nat /\
  (mode dev = NET_I2C_IDLE -> data_len dev = 0%nat).
Proof. apply reachable_inv. Qed.

(** A device with a four-byte buffer after the start of a write and two
    bytes. *)
Lemma X12_relay_buffer_bounds_witness :
  let dev := {| netdev := []; data_buf := [0x11; 0x22; 0; 0];
                data_len := 2; mode := NET_I2C_WRITE_DATA |} in
  reachable (net := queue_client) true 4 dev /\
  length (data_buf dev) = 4%nat /\ (data_len dev <= 4)%nat.
Proof.
  intros dev.
  assert (Hreach : reachable (net := queue_client) true 4 dev).
  { apply (run_reachable true 4
             [Event I2C_START_SEND; Send 0x11; Send 0x22] (init 4 []) _
             [0; 0; 0] []).
    - apply reach_init.
    - vm_compute. reflexivity. }
  split; [exact Hreach|].
  destruct (X12_relay_buffer_bounds true 4 dev Hreach) as (Hlen & Hle & _).
  split; [exact Hlen|exact Hle].
Defined.

(** X13: the file defines [DEBUG_NET_I2C], so [BADF] ends the process, and
    the device as written is never found in [NET_I2C_CONFUSED]: every
    assignment of that mode comes after a [BADF]. *)
Theorem X13_relay_never_confused_as_written
  {Net : Type} {net : NetClient Net} (size : nat) (dev : NetI2C Net) :
  reachable true size dev ->
  mode dev <> NET_I2C_CONFUSED.
Proof.
  induction 1 as [n|dev c dev' r pk _ IH Hstep].
  - discriminate.
  - eapply step_not_confused; eassumption.
Qed.

(** A device that has been read once and refused further bytes. *)
Lemma X13_relay_never_confused_as_written_witness :
  let dev := {| netdev := []; data_buf := [0; 0; 0; 0];
                data_len := 0; mode := NET_I2C_DONE |} in
  reachable (net := queue_client) true 4 dev /\
  mode dev <> NET_I2C_CONFUSED.
Proof.
  intros dev.
  assert (Hreach : reachable (net := queue_client) true 4 dev).
  { apply (run_reachable true 4
             [Event I2C_START_RECV; Recv; Event I2C_NACK] (init 4 []) _
             [0; 0x5A; 0] []).
    - apply reach_init.
    - vm_compute. reflexivity. }
  split; [exact Hreach|].
  exact (X13_relay_never_confused_as_written 4 dev Hreach).
Defined.

(** X14: a write is forwarded as one packet.  From an idle device, the
    start of a write, bytes that fit the buffer and the stop hand the
    network client exactly one packet, the bytes in the order written (an
    empty packet when no byte was written), and leave the device idle
    with an empty count; if the client returns a size other than the
    number of bytes, the [assert] of [net_i2c_do_write] fails instead. *)
Theorem X14_relay_write_is_one_packet
  {Net : Type} {net : NetClient Net} (debug : bool)
  (dev : NetI2C Net) (bs : list Z) :
  mode dev = NET_I2C_IDLE ->
  data_len dev = 0%nat ->
  (length bs <= length (data_buf dev))%nat ->
  let pkt := uint8 <$> bs in
  run debug dev (Event I2C_START_SEND :: (Send <$> bs) ++ [Event I2C_FINISH])
  = if fst (qemu_send_packet (netdev dev) pkt) =? Z.of_nat (length bs)
    then Returns ({| netdev := snd (qemu_send_packet (netdev dev) pkt);
                     data_buf := pkt ++ drop (length bs) (data_buf dev);
                     data_len := 0; mode := NET_I2C_IDLE |},
                  replicate (length bs + 2) 0, [pkt])
    else Aborts.
Proof.
  intros Hm Hlen Hfit pkt.
  change (Event I2C_START_SEND :: (Send <$> bs) ++ [Event I2C_FINISH])
    with ([Event I2C_START_SEND] ++ (Send <$> bs) ++ [Event I2C_FINISH]).
  erewrite run_app; cycle 1.
  { cbn [run step]. unfold net_i2c_event. rewrite Hm. reflexivity. }
  erewrite run_app; cycle 1.
  { apply send_phase; simpl; [reflexivity|lia]. }
  cbn [run step netdev data_buf data_len mode set_mode].
  unfold net_i2c_event, net_i2c_do_write.
  cbn [mode data_len data_buf netdev].
  rewrite Hlen. rewrite take_0. cbn [app Nat.add].
  rewrite take_app_length' by (symmetry; apply length_fmap).
  fold pkt.
  destruct (qemu_send_packet (netdev dev) pkt) as [sz n'].
  cbn [fst snd]. destruct (sz =? Z.of_nat (length bs)); [|reflexivity].
  cbn [set_netdev set_mode set_data_len netdev data_buf data_len mode app].
  unfold set_data_len, set_mode, set_netdev; cbn [netdev data_buf].
  rewrite zeros_around. reflexivity.
Qed.

(** Three bytes written to a device with a four-byte buffer. *)
Lemma X14_relay_write_is_one_packet_witness :
  mode (init 4 ([] : list (list Z))) = NET_I2C_IDLE /\
  data_len (init 4 ([] : list (list Z))) = 0%nat /\
  (length [0x11; 0x22; 0x33] <= length (data_buf (init 4 ([] : list (list Z)))))%nat /\
  run (net := queue_client) true (init 4 [])
    [Event I2C_START_SEND; Send 0x11; Send 0x22; Send 0x33; Event I2C_FINISH]
  = Returns ({| netdev := [[0x11; 0x22; 0x33]];
                data_buf := [0x11; 0x22; 0x33; 0];
                data_len := 0; mode := NET_I2C_IDLE |},
             [0; 0; 0; 0; 0], [[0x11; 0x22; 0x33]]).
Proof.
  split; [reflexivity|]. split; [reflexivity|]. split; [simpl; lia|].
  exact (X14_relay_write_is_one_packet (net := queue_client) true (init 4 [])
           [0x11; 0x22; 0x33] eq_refl eq_refl ltac:(simpl; lia)).
Defined.

Section RelayMoreRuns.

Context {Net : Type} {net : NetClient Net}.

Implicit Types dev : NetI2C Net.

(** Without the debug macros, bytes sent to a full buffer are dropped. *)
Lemma send_phase_full bs : forall dev,
  mode dev = NET_I2C_WRITE_DATA ->
  (length (data_buf dev) <= data_len dev)%nat ->
  run false dev (Send <$> bs) = Returns (dev, replicate (length bs) 0, []).
Proof.
  induction bs as [|b bs IH]; intros dev Hm Hfull; cbn [fmap list_fmap run].
  - reflexivity.
  - cbn [step]. unfold net_i2c_send, BADF. rewrite Hm.
    destruct (Nat.leb_spec (length (data_buf dev)) (data_len dev)); [|lia].
    change (list_fmap Z call Send bs) with (Send <$> bs).
    rewrite IH by assumption. reflexivity.
Qed.

(** Reads in the read mode stay in it and leave the buffer alone. *)
Lemma recv_phase debug k : forall dev,
  mode dev = NET_I2C_READ_DATA ->
  (forall n r, fst (fst (qemu_receive_packet n r)) = 1) ->
  exists n' rs,
    run debug dev (replicate k Recv)
    = Returns (set_netdev n' dev, rs, []) /\
    length rs = k.
Proof.
  induction k as [|k IH]; intros dev Hm Hone; cbn [replicate run].
  - exists (netdev dev), []. destruct dev; split; reflexivity.
  - cbn [step]. unfold net_i2c_recv. rewrite Hm.
    pose proof (Hone (netdev dev) 255) as H1.
    destruct (qemu_receive_packet (netdev dev) 255) as [[sz b] n1].
    simpl in H1. subst sz. cbn [Z.eqb Pos.eqb].
    destruct (IH (set_netdev n1 dev) Hm Hone) as (n2 & rs & Hrun & Hlen).
    rewrite Hrun. exists n2, (uint8 b :: rs).
    split; [reflexivity|]. simpl. lia.
Qed.

End RelayMoreRuns.

(** X15: a write longer than the buffer.  As written, the first byte
    beyond the buffer ends the process and is not stored; without the
    debug macros the bytes beyond the buffer are dropped and the buffer
    holds the first ones. *)
Theorem X15_relay_write_beyond_buffer
  {Net : Type} {net : NetClient Net} (dev : NetI2C Net) (bs : list Z) :
  mode dev = NET_I2C_IDLE ->
  data_len dev = 0%nat ->
  (length (data_buf dev) < length bs)%nat ->
  run true dev (Event I2C_START_SEND :: (Send <$> bs)) = Exits /\
  run false dev (Event I2C_START_SEND :: (Send <$> bs))
  = Returns ({| netdev := netdev dev;
                data_buf := uint8 <$> take (length (data_buf dev)) bs;
                data_len := length (data_buf dev);
                mode := NET_I2C_WRITE_DATA |},
             replicate (S (length bs)) 0, []).
Proof.
  intros Hm Hlen Hbig.
  set (cap := length (data_buf dev)) in *.
  assert (Hsplit : bs = take cap bs ++ drop cap bs) by (symmetry; apply take_drop).
  assert (Htake : length (take cap bs) = cap) by (rewrite length_take; lia).
  destruct (drop cap bs) as [|b rest] eqn:Hdrop.
  { exfalso. apply (f_equal length) in Hdrop. rewrite length_drop in Hdrop.
    simpl in Hdrop. lia. }
  assert (Hfilled : forall debug,
    run debug dev (Event I2C_START_SEND :: (Send <$> take cap bs))
    = Returns ({| netdev := netdev dev;
                  data_buf := uint8 <$> take cap bs;
                  data_len := cap; mode := NET_I2C_WRITE_DATA |},
               replicate (S cap) 0, [])).
  { intros debug.
    change (Event I2C_START_SEND :: (Send <$> take cap bs))
      with ([Event I2C_START_SEND] ++ (Send <$> take cap bs)).
    erewrite run_app; cycle 1.
    { cbn [run step]. unfold net_i2c_event. rewrite Hm. reflexivity. }
    rewrite send_phase; cbn [mode data_len data_buf netdev set_mode];
      rewrite ?Hlen; [|reflexivity|simpl; fold cap; lia].
    rewrite take_0. cbn [Nat.add app]. rewrite Htake.
    fold cap. rewrite drop_ge by (unfold cap; lia). rewrite app_nil_r.
    reflexivity. }
  assert (Hbs : Send <$> bs = (Send <$> take cap bs) ++ (Send <$> b :: rest)).
  { rewrite <- fmap_app. f_equal. exact Hsplit. }
  assert (Hl : length bs = (cap + S (length rest))%nat).
  { rewrite Hsplit at 1. rewrite length_app, Htake. reflexivity. }
  rewrite Hbs.
  change (Event I2C_START_SEND :: (Send <$> take cap bs) ++ (Send <$> b :: rest))
    with ((Event I2C_START_SEND :: (Send <$> take cap bs))
          ++ (Send <$> b :: rest)).
  split.
  - rewrite (run_app true _ _ _ _ _ _ (Hfilled true)).
    cbn [fmap list_fmap run step]. unfold net_i2c_send, BADF.
    cbn [mode data_buf data_len].
    destruct (Nat.leb_spec (length (uint8 <$> take cap bs)) cap) as [_|Hn];
      [reflexivity|].
    rewrite length_fmap, Htake in Hn. lia.
  - rewrite (run_app false _ _ _ _ _ _ (Hfilled false)).
    rewrite send_phase_full;
      [|reflexivity|cbn [data_buf data_len]; rewrite length_fmap, Htake; lia].
    rewrite <- replicate_add, app_nil_r.
    replace (S cap + length (b :: rest))%nat with (S (length bs))
      by (rewrite Hl; simpl; lia).
    reflexivity.
Qed.

(** Five bytes written to a device with a four-byte buffer. *)
Lemma X15_relay_write_beyond_buffer_witness :
  mode (init 4 ([] : list (list Z))) = NET_I2C_IDLE /\
  data_len (init 4 ([] : list (list Z))) = 0%nat /\
  run (net := queue_client) true (init 4 [])
    [Event I2C_START_SEND; Send 1; Send 2; Send 3; Send 4; Send 5] = Exits /\
  run (net := queue_client) false (init 4 [])
    [Event I2C_START_SEND; Send 1; Send 2; Send 3; Send 4; Send 5]
  = Returns ({| netdev := []; data_buf := [1; 2; 3; 4]; data_len := 4;
                mode := NET_I2C_WRITE_DATA |}, replicate 6 0, []).
Proof.
  split; [reflexivity|]. split; [reflexivity|].
  exact (X15_relay_write_beyond_buffer (net := queue_client) (init 4 [])
           [1; 2; 3; 4; 5] eq_refl eq_refl ltac:(simpl; lia)).
Defined.

(** X16: a write followed by a repeated start for reading.  The bytes
    written go out as one packet at the repeated start, not at the stop;
    the byte read is the one the client leaves in the buffer it is given;
    after the NACK and the stop the device is idle with an empty count, and
    no second packet has been sent. *)
Theorem X16_relay_write_then_read
  {Net : Type} {net : NetClient Net} (debug : bool)
  (dev : NetI2C Net) (bs : list Z) :
  mode dev = NET_I2C_IDLE ->
  data_len dev = 0%nat ->
  bs <> [] ->
  (length bs <= length (data_buf dev))%nat ->
  let pkt := uint8 <$> bs in
  let n1 := snd (qemu_send_packet (netdev dev) pkt) in
  fst (qemu_send_packet (netdev dev) pkt) = Z.of_nat (length bs) ->
  fst (fst (qemu_receive_packet n1 0xff)) = 1 ->
  (exists mid,
     run debug dev
       (Event I2C_START_SEND :: (Send <$> bs) ++ [Event I2C_START_RECV])
     = Returns (mid, replicate (length bs + 2) 0, [pkt]) /\
     mode mid = NET_I2C_READ_DATA /\ data_len mid = length bs) /\
  run debug dev
    (Event I2C_START_SEND :: (Send <$> bs)
     ++ [Event I2C_START_RECV; Recv; Event I2C_NACK; Event I2C_FINISH])
  = Returns ({| netdev := snd (qemu_receive_packet n1 0xff);
                data_buf := pkt ++ drop (length bs) (data_buf dev);
                data_len := 0; mode := NET_I2C_IDLE |},
             replicate (length bs + 2) 0
             ++ [uint8 (snd (fst (qemu_receive_packet n1 0xff))); 0; 0],
             [pkt]).
Proof.
  intros Hm Hlen Hne Hfit pkt n1 Hsent Hgot.
  assert (Hpos : length bs <> 0%nat) by (destruct bs; [congruence|discriminate]).
  assert (Hwr : run debug dev (Event I2C_START_SEND :: (Send <$> bs))
                = Returns ({| netdev := netdev dev;
                              data_buf := pkt ++ drop (length bs) (data_buf dev);
                              data_len := length bs;
                              mode := NET_I2C_WRITE_DATA |},
                           replicate (S (length bs)) 0, [])).
  { change (Event I2C_START_SEND :: (Send <$> bs))
      with ([Event I2C_START_SEND] ++ (Send <$> bs)).
    erewrite run_app; cycle 1.
    { cbn [run step]. unfold net_i2c_event. rewrite Hm. reflexivity. }
    rewrite send_phase; cbn [mode data_len data_buf netdev set_mode];
      rewrite ?Hlen; [|reflexivity|simpl; lia].
    rewrite take_0. reflexivity. }
  assert (Hrs : run debug
                  {| netdev := netdev dev;
                     data_buf := pkt ++ drop (length bs) (data_buf dev);
                     data_len := length bs; mode := NET_I2C_WRITE_DATA |}
                  [Event I2C_START_RECV]
                = Returns ({| netdev := n1;
                              data_buf := pkt ++ drop (length bs) (data_buf dev);
                              data_len := length bs;
                              mode := NET_I2C_READ_DATA |}, [0], [pkt])).
  { cbn [run step]. unfold net_i2c_event, net_i2c_do_write.
    cbn [mode data_len data_buf netdev].
    destruct (Nat.eqb_spec (length bs) 0); [contradiction|].
    rewrite take_app_length' by (symmetry; apply length_fmap).
    fold pkt. subst n1.
    destruct (qemu_send_packet (netdev dev) pkt) as [sz n']. simpl in Hsent.
    subst sz. rewrite Z.eqb_refl. reflexivity. }
  change (Event I2C_START_SEND :: (Send <$> bs) ++ [Event I2C_START_RECV])
    with ((Event I2C_START_SEND :: (Send <$> bs)) ++ [Event I2C_START_RECV]).
  change (Event I2C_START_SEND :: (Send <$> bs)
          ++ [Event I2C_START_RECV; Recv; Event I2C_NACK; Event I2C_FINISH])
    with ((Event I2C_START_SEND :: (Send <$> bs))
          ++ [Event I2C_START_RECV]
          ++ [Recv; Event I2C_NACK; Event I2C_FINISH]).
  split.
  - rewrite (run_app debug _ _ _ _ _ _ Hwr), Hrs.
    cbn [replicate app]. rewrite zeros_around.
    eexists. split; [reflexivity|]. split; reflexivity.
  - rewrite (run_app debug _ _ _ _ _ _ Hwr).
    rewrite (run_app debug _ _ _ _ _ _ Hrs).
    cbn [run step]. unfold net_i2c_recv, net_i2c_event.
    cbn [mode netdev].
    destruct (qemu_receive_packet n1 255) as [[sz b] n2]. simpl in Hgot.
    subst sz. cbn [Z.eqb Pos.eqb mode set_netdev set_mode fst snd].
    unfold set_data_len, set_mode; cbn [netdev data_buf mode].
    cbn [replicate app].
    change (0 :: replicate (length bs) 0 ++ [0; uint8 b; 0; 0])
      with (0 :: replicate (length bs) 0 ++ [0] ++ [uint8 b; 0; 0]).
    rewrite app_assoc, app_comm_cons, zeros_around. reflexivity.
Qed.

(** Two bytes written, then one byte read back. *)
Lemma X16_relay_write_then_read_witness :
  mode (init 4 ([] : list (list Z))) = NET_I2C_IDLE /\
  data_len (init 4 ([] : list (list Z))) = 0%nat /\
  [0x11; 0x22] <> ([] : list Z) /\
  run (net := queue_client) true (init 4 [])
    [Event I2C_START_SEND; Send 0x11; Send 0x22;
     Event I2C_START_RECV; Recv; Event I2C_NACK; Event I2C_FINISH]
  = Returns ({| netdev := [[0x11; 0x22]]; data_buf := [0x11; 0x22; 0; 0];
                data_len := 0; mode := NET_I2C_IDLE |},
             [0; 0; 0; 0; 0x5A; 0; 0], [[0x11; 0x22]]).
Proof.
  split; [reflexivity|]. split; [reflexivity|]. split; [discriminate|].
  exact (proj2 (X16_relay_write_then_read (net := queue_client) true
                  (init 4 []) [0x11; 0x22] eq_refl eq_refl
                  ltac:(discriminate) ltac:(simpl; lia) eq_refl eq_refl)).
Defined.

(** X17: a read requested right after the start of a write, before any
    byte: nothing is sent to the network; as written the process exits,
    and without the debug macros the device becomes confused. *)
Theorem X17_relay_read_after_empty_write
  {Net : Type} {net : NetClient Net} (dev : NetI2C Net) :
  mode dev = NET_I2C_IDLE ->
  data_len dev = 0%nat ->
  run true dev [Event I2C_START_SEND; Event I2C_START_RECV] = Exits /\
  run false dev [Event I2C_START_SEND; Event I2C_START_RECV]
  = Returns (set_mode NET_I2C_CONFUSED dev, [0; 0], []).
Proof.
  intros Hm Hlen.
  cbn [run step]. unfold net_i2c_event, BADF. rewrite Hm.
  cbn [mode data_len set_mode]. rewrite Hlen. cbn [Nat.eqb].
  split; [reflexivity|]. destruct dev; reflexivity.
Qed.

(** The device right after it is realized. *)
Lemma X17_relay_read_after_empty_write_witness :
  mode (init 4 ([] : list (list Z))) = NET_I2C_IDLE /\
  data_len (init 4 ([] : list (list Z))) = 0%nat /\
  run (net := queue_client) true (init 4 [])
    [Event I2C_START_SEND; Event I2C_START_RECV] = Exits.
Proof.
  split; [reflexivity|]. split; [reflexivity|].
  exact (proj1 (X17_relay_read_after_empty_write (net := queue_client)
                  (init 4 []) eq_refl eq_refl)).
Defined.

(** X18: a read.  With a client that delivers one byte per call, the start
    of a read, any number of bytes read, a NACK and the stop answer each
    read with one byte, send nothing to the network, leave the buffer as
    it was and the device idle; as written, a stop that is not preceded by
    the NACK ends the process. *)
Theorem X18_relay_read_needs_nack
  {Net : Type} {net : NetClient Net} (debug : bool)
  (dev : NetI2C Net) (k : nat) :
  mode dev = NET_I2C_IDLE ->
  (forall n r, fst (fst (qemu_receive_packet n r)) = 1) ->
  (exists dev' rs,
     run debug dev
       (Event I2C_START_RECV :: replicate k Recv
        ++ [Event I2C_NACK; Event I2C_FINISH])
     = Returns (dev', 0 :: rs ++ [0; 0], []) /\
     length rs = k /\
     mode dev' = NET_I2C_IDLE /\ data_len dev' = 0%nat /\
     data_buf dev' = data_buf dev) /\
  run true dev (Event I2C_START_RECV :: replicate k Recv ++ [Event I2C_FINISH])
  = Exits.
Proof.
  intros Hm Hone.
  assert (Hstart : forall d, run d dev [Event I2C_START_RECV]
                    = Returns (set_mode NET_I2C_READ_DATA dev, [0], [])).
  { intros d. cbn [run step]. unfold net_i2c_event. rewrite Hm. reflexivity. }
  change (Event I2C_START_RECV :: replicate k Recv
          ++ [Event I2C_NACK; Event I2C_FINISH])
    with ([Event I2C_START_RECV] ++ replicate k Recv
          ++ [Event I2C_NACK; Event I2C_FINISH]).
  change (Event I2C_START_RECV :: replicate k Recv ++ [Event I2C_FINISH])
    with ([Event I2C_START_RECV] ++ replicate k Recv ++ [Event I2C_FINISH]).
  split.
  - destruct (recv_phase debug k (set_mode NET_I2C_READ_DATA dev) eq_refl Hone)
      as (n' & rs & Hrun & Hlen).
    rewrite (run_app debug _ _ _ _ _ _ (Hstart debug)).
    rewrite (run_app debug _ _ _ _ _ _ Hrun).
    cbn [run step]. unfold net_i2c_event. cbn [mode set_mode set_netdev].
    eexists. exists rs. split; [reflexivity|]. repeat split. exact Hlen.
  - destruct (recv_phase true k (set_mode NET_I2C_READ_DATA dev) eq_refl Hone)
      as (n' & rs & Hrun & Hlen).
    rewrite (run_app true _ _ _ _ _ _ (Hstart true)).
    rewrite (run_app true _ _ _ _ _ _ Hrun).
    reflexivity.
Qed.

(** Two bytes read from the client that answers [0x5A]. *)
Lemma X18_relay_read_needs_nack_witness :
  mode (init 4 ([] : list (list Z))) = NET_I2C_IDLE /\
  (forall (n : list (list Z)) r,
     fst (fst (qemu_receive_packet (NetClient := queue_client) n r)) = 1) /\
  run (net := queue_client) true (init 4 [])
    [Event I2C_START_RECV; Recv; Recv; Event I2C_FINISH] = Exits /\
  exists dev' rs,
    run (net := queue_client) true (init 4 [])
      [Event I2C_START_RECV; Recv; Recv; Event I2C_NACK; Event I2C_FINISH]
    = Returns (dev', 0 :: rs ++ [0; 0], []) /\
    mode dev' = NET_I2C_IDLE.
Proof.
  split; [reflexivity|]. split; [reflexivity|].
  destruct (X18_relay_read_needs_nack (net := queue_client) true (init 4 []) 2
              eq_refl (fun _ _ => eq_refl))
    as [(dev' & rs & Hrun & _ & Hmode & _) Hexit].
  split; [exact Hexit|].
  exists dev', rs. split; [exact Hrun|exact Hmode].
Defined.

(** A call on a confused device, without the debug macros. *)
Lemma confused_step
  {Net : Type} {net : NetClient Net} (dev : NetI2C Net) (c : call) :
  mode dev = NET_I2C_CONFUSED ->
  step false dev c
  = match c with
    | Event I2C_FINISH =>
        Returns (set_data_len 0 (set_mode NET_I2C_IDLE dev), 0, [])
    | Recv => Returns (dev, 0xff, [])
    | _ => Returns (dev, 0, [])
    end.
Proof.
  intros Hm.
  assert (Hself : set_mode NET_I2C_CONFUSED dev = dev)
    by (destruct dev; simpl in *; subst; reflexivity).
  destruct c as [e| |data]; cbn [step].
  - unfold net_i2c_event, BADF. rewrite Hm.
    destruct e; rewrite ?Hself; reflexivity.
  - unfold net_i2c_recv, BADF. rewrite Hm, Hself. reflexivity.
  - unfold net_i2c_send, BADF. rewrite Hm. reflexivity.
Qed.

(** X19: without the debug macros, the confused mode is left by the stop
    only.  Any sequence of calls without a stop leaves a confused device
    exactly as it was (mode, buffer, count and network client), sends no
    packet, and answers each read with [0xff] and every other call with 0;
    the stop that follows makes the device idle with an empty count and
    sends nothing either. *)
Theorem X19_relay_confused_until_stop
  {Net : Type} {net : NetClient Net} (dev : NetI2C Net) (cs : list call) :
  mode dev = NET_I2C_CONFUSED ->
  Forall (fun c => c <> Event I2C_FINISH) cs ->
  let rs := (fun c => match c with Recv => 0xff | _ => 0 end) <$> cs in
  run false dev cs = Returns (dev, rs, []) /\
  run false dev (cs ++ [Event I2C_FINISH])
  = Returns (set_data_len 0 (set_mode NET_I2C_IDLE dev), rs ++ [0], []).
Proof.
  intros Hm Hns rs.
  assert (Hrun : run false dev cs = Returns (dev, rs, [])).
  { subst rs. induction Hns as [|c cs Hc _ IH]; [reflexivity|].
    cbn [run fmap list_fmap]. rewrite (confused_step dev c Hm).
    change (list_fmap call Z (fun c => match c with Recv => 255 | _ => 0 end) cs)
      with ((fun c => match c with Recv => 255 | _ => 0 end) <$> cs).
    destruct c as [e| |data]; [destruct e; try congruence| |];
      rewrite IH; reflexivity. }
  split; [exact Hrun|].
  rewrite (run_app false _ _ _ _ _ _ Hrun).
  cbn [run]. rewrite (confused_step dev _ Hm). reflexivity.
Qed.

(** A device confused by a NACK received while idle, then read, written
    to, and stopped. *)
Lemma X19_relay_confused_until_stop_witness :
  let dev := {| netdev := ([] : list (list Z)); data_buf := [0; 0; 0; 0];
                data_len := 0; mode := NET_I2C_CONFUSED |} in
  reachable (net := queue_client) false 4 dev /\
  mode dev = NET_I2C_CONFUSED /\
  Forall (fun c => c <> Event I2C_FINISH)
    [Recv; Send 0x11; Event I2C_START_SEND] /\
  run (net := queue_client) false dev
    [Recv; Send 0x11; Event I2C_START_SEND; Event I2C_FINISH]
  = Returns (init 4 [], [0xff; 0; 0; 0], []).
Proof.
  intros dev.
  assert (Hns : Forall (fun c => c <> Event I2C_FINISH)
                  [Recv; Send 0x11; Event I2C_START_SEND])
    by (repeat constructor; discriminate).
  split.
  { apply (run_reachable false 4 [Event I2C_NACK] (init 4 []) _ [0] []).
    - apply reach_init.
    - vm_compute. reflexivity. }
  split; [reflexivity|]. split; [exact Hns|].
  exact (proj2 (X19_relay_confused_until_stop (net := queue_client) dev
                  [Recv; Send 0x11; Event I2C_START_SEND] eq_refl Hns)).
Defined.
